(** * Landsat downloader ([downloader_all_sat.py]): model and properties

    A shallow embedding of the batch job that maps a date window to the
    Landsat Collection 2 Level 2 catalogues, queries the USGS M2M service,
    selects surface temperature / QA bands, downloads them and normalises
    the [.TIF] extension.

    Conventions.
    - Python [str] values are modelled as [string] (ASCII text), [bytes] as
      [list ascii].
    - [datetime.date] values are records of [Z]; Python compares them as the
      tuples (year, month, day).
    - JSON documents exchanged with the service are modelled by the records
      of the fields the program reads. *)

From Stdlib Require Import ZArith Ascii String List Bool Lia PrimFloat.
From stdpp Require Import base option list gmap strings pretty.

Local Open Scope Z_scope.

(** ** Exceptions and results *)

(** The exception classes the program can meet.  All of them derive from
    Python's [Exception]; [SystemExit] does not and is kept apart in
    [outcome] below. *)
Inductive exn : Type :=
| ValueError (msg : string)
| KeyError (msg : string)
| RequestException (msg : string)
| HTTPError (msg : string)
| OSError (msg : string).

Definition exn_str (e : exn) : string :=
  match e with
  | ValueError m | KeyError m | RequestException m | HTTPError m | OSError m => m
  end.

(** A pure computation that may raise. *)
Inductive result (A : Type) : Type :=
| Ok (a : A)
| Err (e : exn).
Arguments Ok {A} a.
Arguments Err {A} e.

(** ** Dates *)

Module Date.

Record date : Type := Build { year : Z; month : Z; day : Z }.

(** Comparison of [datetime.date] objects: that of the tuples
    (year, month, day). *)
Definition cmp (a b : date) : comparison :=
  match year a ?= year b with
  | Eq => match month a ?= month b with
          | Eq => day a ?= day b
          | c => c
          end
  | c => c
  end.

(** The order of the calendar, as a proposition. *)
Definition le (a b : date) : Prop :=
  year a < year b \/
  (year a = year b /\
   (month a < month b \/ (month a = month b /\ day a <= day b))).

Definition ltb (a b : date) : bool :=
  match cmp a b with Lt => true | _ => false end.

Definition leb (a b : date) : bool :=
  match cmp a b with Gt => false | _ => true end.

(** [max(a, b)] keeps its first argument unless the second is strictly
    greater; [min(a, b)] keeps its first argument unless the second is
    strictly smaller. *)
Definition max (a b : date) : date := if ltb a b then b else a.
Definition min (a b : date) : date := if ltb b a then b else a.

Definition is_leap (y : Z) : bool :=
  (y mod 4 =? 0) && (negb (y mod 100 =? 0) || (y mod 400 =? 0)).

Definition days_in_month (y m : Z) : Z :=
  if m =? 2 then (if is_leap y then 29 else 28)
  else if (m =? 4) || (m =? 6) || (m =? 9) || (m =? 11) then 30
  else 31.

(** The check made by the constructor [datetime.date(y, m, d)]. *)
Definition valid (d : date) : bool :=
  (1 <=? year d) && (year d <=? 9999) &&
  (1 <=? month d) && (month d <=? 12) &&
  (1 <=? day d) && (day d <=? days_in_month (year d) (month d)).

End Date.

Abbreviation date := Date.date.

(** ** [datetime.datetime.strptime(s, "%Y-%m-%d").date()] *)

Module Strptime.

Definition digit (c : ascii) : option Z :=
  let n := Z.of_nat (nat_of_ascii c) in
  if (48 <=? n) && (n <=? 57) then Some (n - 48) else None.

Definition digit_in (lo hi : Z) (c : ascii) : option Z :=
  match digit c with
  | Some n => if (lo <=? n) && (n <=? hi) then Some n else None
  | None => None
  end.

(** [%Y] is the pattern [\d\d\d\d]. *)
Definition year4 (a b c d : ascii) : option Z :=
  match digit a, digit b, digit c, digit d with
  | Some x, Some y, Some z, Some t => Some (1000 * x + 100 * y + 10 * z + t)
  | _, _, _, _ => None
  end.

(** [%m] is the pattern [1[0-2]|0[1-9]|[1-9]]; in the format it is
    followed by a literal [-], so an alternative applies only when the
    hyphen comes next.  Gives the month and the text after the hyphen. *)
Definition month_dash (l : list ascii) : option (Z * list ascii) :=
  match l with
  | a :: b :: "-"%char :: rest =>
      match digit_in 1 1 a, digit_in 0 2 b with
      | Some _, Some y => Some (10 + y, rest)
      | _, _ =>
          match digit_in 0 0 a, digit_in 1 9 b with
          | Some _, Some y => Some (y, rest)
          | _, _ => None
          end
      end
  | a :: "-"%char :: rest =>
      match digit_in 1 9 a with
      | Some x => Some (x, rest)
      | None => None
      end
  | _ => None
  end.

(** [%d] is the pattern [3[01]|[12]\d|0[1-9]|[1-9]| [1-9]]; it ends the
    format, and text left after it makes [strptime] fail ("unconverted
    data remains"). *)
Definition day_end (l : list ascii) : option Z :=
  match l with
  | [a; b] =>
      match digit_in 3 3 a, digit_in 0 1 b with
      | Some _, Some y => Some (30 + y)
      | _, _ =>
          match digit_in 1 2 a, digit b with
          | Some x, Some y => Some (10 * x + y)
          | _, _ =>
              match digit_in 0 0 a, digit_in 1 9 b with
              | Some _, Some y => Some y
              | _, _ =>
                  if Ascii.eqb a " " then digit_in 1 9 b else None
              end
          end
      end
  | [a] => digit_in 1 9 a
  | _ => None
  end.

Definition fields (s : string) : option date :=
  match list_ascii_of_string s with
  | a :: b :: c :: d :: "-"%char :: rest =>
      match year4 a b c d with
      | Some y =>
          match month_dash rest with
          | Some (m, rest') =>
              match day_end rest' with
              | Some dd => Some (Date.Build y m dd)
              | None => None
              end
          | None => None
          end
      | None => None
      end
  | _ => None
  end.

(** The whole call: the text must match the format, and the fields must
    form a date of the calendar; otherwise [ValueError]. *)
Definition strptime (s : string) : result date :=
  match fields s with
  | Some d =>
      if Date.valid d then Ok d
      else Err (ValueError "day is out of range for month")
  | None => Err (ValueError "time data does not match format '%Y-%m-%d'")
  end.

End Strptime.

(** ** Dataset selection *)

Definition landsat_tm : string := "landsat_tm_c2_l2".
Definition landsat_etm : string := "landsat_etm_c2_l2".
Definition landsat_ot : string := "landsat_ot_c2_l2".

(** The ends of the sensor intervals written in [get_valid_datasets]. *)
Definition tm_start : date := Date.Build 1982 7 16.
Definition tm_end : date := Date.Build 2011 6 5.
Definition etm_start : date := Date.Build 1999 4 15.
Definition etm_end : date := Date.Build 2022 4 6.
Definition ot_start : date := Date.Build 2013 2 11.

(** The nested function [overlaps] of [get_valid_datasets]. *)
Definition overlaps (s1 e1 s2 e2 : date) : bool :=
  Date.leb (Date.max s1 s2) (Date.min e1 e2).

(** [get_valid_datasets(start_date, end_date)].  [today] is the value of
    [datetime.date.today()] at the call.  The Python function builds a
    [set] and returns [list(valid)]. *)
Definition get_valid_datasets (today : date) (start_date end_date : string)
  : result (list string) :=
  match Strptime.strptime start_date with
  | Err e => Err e
  | Ok start =>
      match Strptime.strptime end_date with
      | Err e => Err e
      | Ok end_ =>
          let valid : gset string := ∅ in
          let valid :=
            if overlaps start end_ (Date.Build 1982 7 16) (Date.Build 2011 6 5)
            then valid ∪ {[ landsat_tm ]} else valid in
          let valid :=
            if overlaps start end_ (Date.Build 1999 4 15) (Date.Build 2022 4 6)
            then valid ∪ {[ landsat_etm ]} else valid in
          let valid :=
            if overlaps start end_ (Date.Build 2013 2 11) today
            then valid ∪ {[ landsat_ot ]} else valid in
          Ok (elements valid)
      end
  end.

(** ** Text helpers *)

Definition nl : string := String "010"%char "".

(** [sub in s] on [str]: [sub] occurs in [s] as a contiguous run. *)
Fixpoint contains (sub s : string) : bool :=
  String.prefix sub s ||
  match s with
  | EmptyString => false
  | String _ s' => contains sub s'
  end.

(** The same as a proposition: [s] is some text, then [sub], then some
    text. *)
Definition occurs_in (sub s : string) : Prop :=
  exists pre post, s = pre +:+ sub +:+ post.

(** [s.startswith(c)] and [s.endswith(c)] for a one-character [c]. *)
Definition startswith (c : ascii) (s : string) : bool :=
  match s with
  | String a _ => Ascii.eqb a c
  | EmptyString => false
  end.

Fixpoint endswith (c : ascii) (s : string) : bool :=
  match s with
  | EmptyString => false
  | String a EmptyString => Ascii.eqb a c
  | String _ s' => endswith c s'
  end.

Fixpoint lstrip (c : ascii) (s : string) : string :=
  match s with
  | EmptyString => EmptyString
  | String a s' => if Ascii.eqb a c then lstrip c s' else s
  end.

Fixpoint rstrip (c : ascii) (s : string) : string :=
  match s with
  | EmptyString => EmptyString
  | String a s' =>
      match rstrip c s' with
      | EmptyString => if Ascii.eqb a c then EmptyString else String a EmptyString
      | r => String a r
      end
  end.

(** [s.strip(c)] for a one-character [c]. *)
Definition strip (c : ascii) (s : string) : string := rstrip c (lstrip c s).

Fixpoint str_drop (n : nat) (s : string) : string :=
  match n, s with
  | O, _ => s
  | S _, EmptyString => EmptyString
  | S k, String _ s' => str_drop k s'
  end.

Fixpoint str_take (n : nat) (s : string) : string :=
  match n, s with
  | O, _ => EmptyString
  | S _, EmptyString => EmptyString
  | S k, String a s' => String a (str_take k s')
  end.

(** The longest prefix without a newline: what [.+] can match. *)
Fixpoint line_prefix (s : string) : string :=
  match s with
  | EmptyString => EmptyString
  | String a s' => if Ascii.eqb a "010" then EmptyString else String a (line_prefix s')
  end.

(** A match of the pattern [filename=(.+)] at the very start of [s]: the
    text of its group.  [.] matches any character but a newline, [+] is
    greedy and needs one character at least. *)
Definition match_filename_here (s : string) : option string :=
  if String.prefix "filename=" s then
    match line_prefix (str_drop 9 s) with
    | EmptyString => None
    | g => Some g
    end
  else None.

(** [re.findall(r"filename=(.+)", s)]: the groups of the successive
    matches, left to right, without overlap.  [skip] counts the characters
    still covered by the previous match. *)
Fixpoint findall_filename_from (skip : nat) (s : string) : list string :=
  match s with
  | EmptyString => []
  | String _ s' =>
      match skip with
      | S k => findall_filename_from k s'
      | O =>
          match match_filename_here s with
          | Some g => g :: findall_filename_from (8 + String.length g) s'
          | None => findall_filename_from 0 s'
          end
      end
  end.

Definition findall_filename (s : string) : list string :=
  findall_filename_from 0 s.

(** [repr] of a list of plain identifiers, as the f-string prints it. *)
Definition repr_list (l : list string) : string :=
  "[" +:+ String.concat ", " (map (fun s => "'" +:+ s +:+ "'") l) +:+ "]".

(** [posixpath.join(a, b)]. *)
Definition os_path_join (a b : string) : string :=
  if startswith "/" b then b
  else if (String.length a =? 0)%nat || endswith "/" a then a +:+ b
  else a +:+ "/" +:+ b.

(** [os.path.join] with a relative second part: a prefix that depends on
    the directory only, then the name. *)
Definition join_prefix (a : string) : string :=
  if (String.length a =? 0)%nat || endswith "/" a then a else a +:+ "/".

(** A name that does not start at the root. *)
Definition relative (name : string) : Prop := startswith "/" name = false.

(** [str.rfind(c)] for a one-character [c]: the last index, or [-1]. *)
Fixpoint rfind (c : ascii) (s : string) : Z :=
  match s with
  | EmptyString => -1
  | String a s' =>
      let i := rfind c s' in
      if 0 <=? i then i + 1
      else if Ascii.eqb a c then 0 else -1
  end.

(** The loop of [genericpath._splitext] that skips leading dots: is there
    a character other than the dot at an index in [from, from + n)? *)
Fixpoint non_dot_before (n : nat) (from : nat) (p : string) : bool :=
  match n with
  | O => false
  | S k =>
      match String.get from p with
      | Some a => if Ascii.eqb a "." then non_dot_before k (S from) p else true
      | None => true
      end
  end.

(** [posixpath.splitext(p)]. *)
Definition splitext (p : string) : string * string :=
  let sepIndex := rfind "/" p in
  let dotIndex := rfind "." p in
  if (sepIndex <? dotIndex)
     && non_dot_before (Z.to_nat (dotIndex - (sepIndex + 1))) (Z.to_nat (sepIndex + 1)) p
  then (str_take (Z.to_nat dotIndex) p, str_drop (Z.to_nat dotIndex) p)
  else (p, EmptyString).

(** [str.upper()] on ASCII text. *)
Definition upper_char (c : ascii) : ascii :=
  let n := nat_of_ascii c in
  if ((97 <=? n) && (n <=? 122))%nat then ascii_of_nat (n - 32) else c.

Fixpoint upper (s : string) : string :=
  match s with
  | EmptyString => EmptyString
  | String a s' => String (upper_char a) (upper s')
  end.


(** ** Documents exchanged with the M2M service *)

(** An entry of [scenes['results']]. *)
Module Scene.
Record t : Type := Build { entityId : string }.
End Scene.

(** An entry of an option record's [secondaryDownloads]. *)
Module Item.
Record t : Type := Build {
  entityId : string;
  id : string;
  displayId : string;
  bulkAvailable : bool
}.
End Item.

(** A row of the frame built by [pd.json_normalize(options)].  The field is
    [None] when the record has no [secondaryDownloads] (or a null one), so
    that [option.get('secondaryDownloads')] is falsy. *)
Module OptionRow.
Record t : Type := Build { secondaryDownloads : option (list Item.t) }.
End OptionRow.

(** A download candidate, [{"entityId": ..., "productId": ...}]. *)
Module Download.
Record t : Type := Build { entityId : string; productId : string }.
End Download.

(** An entry of [availableDownloads]. *)
Module Available.
Record t : Type := Build { url : string }.
End Available.

(** The [data] of a [download-request] answer; [None] when the key
    [availableDownloads] is absent. *)
Module RequestResults.
Record t : Type := Build { availableDownloads : option (list Available.t) }.
End RequestResults.

(** The payloads [sendRequest] serialises with [json.dumps]. *)
Inductive payload : Type :=
| LoginPayload (username token : string)
| SearchPayload (datasetName start end_ : string)
    (xmin ymin xmax ymax : float) (cloudCoverMax : Z)
| OptionsPayload (datasetName : string) (entityIds : list string)
    (includeSecondaryFileGroups : bool)
| RequestPayload (downloads : list Download.t) (label : string).

(** ** The environment: network, clock, file system *)

(** What the network has been asked so far. *)
Inductive event : Type :=
| Post (url : string) (data : payload) (headers : list (string * string))
| Get (url : string).

(** The answer to a [requests.post]: no answer at all (the call raises), or
    a status code and a body.  The body is [None] when it is not JSON,
    [Some None] when it is JSON without the key [data], and [Some (Some d)]
    when [output['data']] is [d]. *)
Inductive http_reply (A : Type) : Type :=
| NoResponse (e : exn)
| Response (status_code : Z) (json : option (option A)).
Arguments NoResponse {A} e.
Arguments Response {A} status_code json.

(** The answer to a [requests.get(url, stream=True)]: the header
    [content-disposition] when present, and the body, whose reading
    ([response.content]) can fail. *)
Inductive get_reply : Type :=
| GetFailed (e : exn)
| GetResponse (content_disposition : option string)
    (content : result (list ascii)).

Inductive node : Type :=
| File (content : list ascii)
| Dir.

(** The service answers as a function of everything asked so far, the last
    request included.  [open_fault] stands for the reasons an [open] can
    fail that the store does not record (permissions, missing parents). *)
Record Env : Type := {
  today : date;
  now_label : string;
  login_reply : list event -> http_reply string;
  search_reply : list event -> http_reply (option (list Scene.t));
  options_reply : list event -> http_reply (list OptionRow.t);
  request_reply : list event -> http_reply RequestResults.t;
  download_reply : list event -> get_reply;
  open_fault : gmap string node -> string -> option exn
}.

(** The state the program acts on: the requests made (oldest first), the
    lines printed, and the files, by path. *)
Record world : Type := World {
  net : list event;
  stdout : list string;
  fs : gmap string node
}.

Definition log_event (ev : event) (w : world) : world :=
  World (net w ++ [ev]) (stdout w) (fs w).
Definition add_line (s : string) (w : world) : world :=
  World (net w) (stdout w ++ [s]) (fs w).
Definition set_fs (m : gmap string node) (w : world) : world :=
  World (net w) (stdout w) m.

(** ** The monad of the script: state, exceptions and [sys.exit] *)

Inductive outcome (A : Type) : Type :=
| Returned (a : A)
| Raised (e : exn)
| Exited (code : Z).
Arguments Returned {A} a.
Arguments Raised {A} e.
Arguments Exited {A} code.

Definition M (A : Type) : Type := world -> outcome A * world.

Definition ret {A} (a : A) : M A := fun w => (Returned a, w).

Definition bind {A B} (m : M A) (f : A -> M B) : M B :=
  fun w =>
    match m w with
    | (Returned a, w') => f a w'
    | (Raised e, w') => (Raised e, w')
    | (Exited c, w') => (Exited c, w')
    end.

Definition raise {A} (e : exn) : M A := fun w => (Raised e, w).

(** [sys.exit(code)]: [SystemExit] is not an [Exception], no handler of the
    script catches it. *)
Definition sys_exit {A} (code : Z) : M A := fun w => (Exited code, w).

(** [try: m  except Exception as e: h e]. *)
Definition try_except {A} (m : M A) (h : exn -> M A) : M A :=
  fun w =>
    match m w with
    | (Raised e, w') => h e w'
    | r => r
    end.

Definition lift {A} (r : result A) : M A :=
  match r with
  | Ok a => ret a
  | Err e => raise e
  end.

Definition print (s : string) : M unit := fun w => (Returned tt, add_line s w).

Declare Scope script_scope.
Delimit Scope script_scope with script.
Notation "'let*' x ':=' m 'in' k" := (bind m (fun x => k))
  (at level 10, x name, m at level 100, k at level 200) : script_scope.
Notation "m ;; k" := (bind m (fun _ => k))
  (at level 100, k at level 200, right associativity) : script_scope.
Local Open Scope script_scope.

(** A [for] loop that carries a value from one iteration to the next. *)
Fixpoint for_acc {A S} (body : A -> S -> M S) (l : list A) (s : S) : M S :=
  match l with
  | [] => ret s
  | x :: l' => let* s' := body x s in for_acc body l' s'
  end.

Definition for_each {A} (body : A -> M unit) (l : list A) : M unit :=
  for_acc (fun x _ => body x) l tt.

(** ** [sendRequest] *)

(** [sendRequest(url, data, apiKey)] against the endpoint whose answers are
    [reply]: the request is sent with its headers, a status of the 4xx or
    5xx class raises ([raise_for_status]), a body that is not JSON raises,
    a body without [data] raises. *)
Definition request_headers (apiKey : option string) : list (string * string) :=
  let headers := [("Content-Type", "application/json")] in
  match apiKey with
  | Some k => if (String.length k =? 0)%nat then headers
              else headers ++ [("X-Auth-Token", k)]
  | None => headers
  end.

Definition sendRequest {A} (reply : list event -> http_reply A)
    (url : string) (data : payload) (apiKey : option string) : M A :=
  fun w =>
    let headers := request_headers apiKey in
    let w := log_event (Post url data headers) w in
    match reply (net w) with
    | NoResponse e => (Raised e, w)
    | Response status_code body =>
        if (400 <=? status_code) && (status_code <? 600)
        then (Raised (HTTPError (pretty status_code)), w)
        else
          match body with
          | None => (Raised (ValueError "Expecting value"), w)
          | Some None => (Raised (KeyError "'data'"), w)
          | Some (Some d) => (Returned d, w)
          end
    end.

(** ** [downloadFile] *)

Definition requests_get (env : Env) (url : string)
  : M (option string * result (list ascii)) :=
  fun w =>
    let w := log_event (Get url) w in
    match download_reply env (net w) with
    | GetFailed e => (Raised e, w)
    | GetResponse disposition content => (Returned (disposition, content), w)
    end.

(** [open(p, 'wb')]: fails on a directory, or when the environment says so;
    otherwise the file exists afterwards and is empty. *)
Definition open_wb (env : Env) (p : string) : M unit :=
  fun w =>
    match fs w !! p with
    | Some Dir => (Raised (OSError "Is a directory"), w)
    | _ =>
        match open_fault env (fs w) p with
        | Some e => (Raised e, w)
        | None => (Returned tt, set_fs (<[p := File []]> (fs w)) w)
        end
    end.

Definition write (p : string) (bytes : list ascii) : M unit :=
  fun w => (Returned tt, set_fs (<[p := File bytes]> (fs w)) w).

Definition downloadFile (env : Env) (url path : string) : M unit :=
  try_except
    (let* response := requests_get env url in
     let disposition := default "" (fst response) in
     let matches := findall_filename disposition in
     match matches with
     | [] => print "Could not find filename in content-disposition header."
     | m0 :: _ =>
         let filename := strip "034" m0 in
         print ("Downloading " +:+ filename +:+ " ..." +:+ nl) ;;
         open_wb env (os_path_join path filename) ;;
         (let* bytes := lift (snd response) in
          write (os_path_join path filename) bytes) ;;
         print ("Downloaded " +:+ filename +:+ nl)
     end)
    (fun e => print ("Download Failed: " +:+ exn_str e)).

(** ** The script *)

Definition bandNames : list string := ["QA_PIXEL"; "ST_B10"; "ST_B6"].
Definition serviceUrl : string := "https://m2m.cr.usgs.gov/api/api/json/stable/".

(** The command line, after [argparse]. *)
Record Args : Type := {
  username : string;
  token : string;
  bbox : float * float * float * float;
  start_date : string;
  end_date : string;
  city : string;
  out_dir : string
}.

Definition candidate (item : Item.t) : Download.t :=
  Download.Build (Item.entityId item) (Item.id item).

(** The body of [for bandName in bandNames]. *)
Definition scan_band (item : Item.t) (all_downloads : list Download.t)
    (bandName : string) : list Download.t :=
  if Item.bulkAvailable item && contains bandName (Item.displayId item)
  then all_downloads ++ [candidate item]
  else all_downloads.

(** The body of [for item in option['secondaryDownloads']]. *)
Definition scan_item (all_downloads : list Download.t) (item : Item.t)
  : list Download.t :=
  fold_left (scan_band item) bandNames all_downloads.

(** The body of [for _, option in options.iterrows()]. *)
Definition scan_option (all_downloads : list Download.t) (option : OptionRow.t)
  : list Download.t :=
  match OptionRow.secondaryDownloads option with
  | None => all_downloads
  | Some [] => all_downloads
  | Some items => fold_left scan_item items all_downloads
  end.

Definition scan_options (options : list OptionRow.t)
    (all_downloads : list Download.t) : list Download.t :=
  fold_left scan_option options all_downloads.

(** The payload of the scene search: acquisition dates, bounding rectangle
    and cloud cover ceiling. *)
Definition search_payload (args : Args) (datasetName : string) : payload :=
  let '(xmin, ymin, xmax, ymax) := bbox args in
  SearchPayload datasetName (start_date args) (end_date args)
    xmin ymin xmax ymax 70.

Definition options_payload (datasetName : string) (sceneIds : list string)
  : payload :=
  OptionsPayload datasetName sceneIds true.

(** The body of [for datasetName in datasetNames]; the value is
    [all_downloads] after the iteration. *)
Definition search_dataset (env : Env) (args : Args) (apiKey : string)
    (datasetName : string) (all_downloads : list Download.t)
  : M (list Download.t) :=
  print (nl +:+ "Searching dataset: " +:+ datasetName) ;;
  let payload := search_payload args datasetName in
  let* scenes :=
    sendRequest (search_reply env) (serviceUrl +:+ "scene-search") payload
      (Some apiKey) in
  match scenes with
  | None | Some [] =>
      print ("No scenes found in " +:+ datasetName) ;;
      ret all_downloads
  | Some results =>
      let sceneIds := map Scene.entityId results in
      let payload := options_payload datasetName sceneIds in
      let* options :=
        try_except
          (let* o :=
             sendRequest (options_reply env) (serviceUrl +:+ "download-options")
               payload (Some apiKey) in
           ret (Some o))
          (fun e =>
             print ("Error fetching download options for " +:+ datasetName
                    +:+ ": " +:+ exn_str e) ;;
             ret None) in
      match options with
      | None => ret all_downloads
      | Some options => ret (scan_options options all_downloads)
      end
  end.

Definition search_datasets (env : Env) (args : Args) (apiKey : string)
    (datasetNames : list string) (all_downloads : list Download.t)
  : M (list Download.t) :=
  for_acc (search_dataset env args apiKey) datasetNames all_downloads.

(** [os.makedirs(out_dir, exist_ok=True)]. *)
Definition makedirs (p : string) : M unit :=
  fun w =>
    if (String.length p =? 0)%nat
    then (Raised (OSError "No such file or directory"), w)
    else
      match fs w !! p with
      | Some (File _) => (Raised (OSError "File exists"), w)
      | _ => (Returned tt, set_fs (<[p := Dir]> (fs w)) w)
      end.

Definition isfile (p : string) : M bool :=
  fun w => (Returned (match fs w !! p with Some (File _) => true | _ => false end), w).

(** [os.rename(src, dst)] on a POSIX system: a file replaces a file, and
    cannot replace a directory. *)
Definition os_rename (src dst : string) : M unit :=
  fun w =>
    match fs w !! src with
    | None => (Raised (OSError "No such file or directory"), w)
    | Some n =>
        match n, fs w !! dst with
        | File _, Some Dir => (Raised (OSError "Is a directory"), w)
        | Dir, Some (File _) => (Raised (OSError "Not a directory"), w)
        | _, _ =>
            if String.eqb src dst then (Returned tt, w)
            else (Returned tt, set_fs (<[dst := n]> (delete src (fs w))) w)
        end
    end.

(** The names [os.listdir(dir)] gives: the entries of the store right
    under [dir].  Python leaves their order unspecified. *)
Definition entry_name (dir key : string) : option string :=
  let root := os_path_join dir "x" in
  let k := (String.length root - 1)%nat in
  let name := str_drop k key in
  if String.eqb (str_take k key) (str_take k root)
     && negb (String.length name =? 0)%nat
     && negb (contains "/" name)
  then Some name else None.

Definition listdir (dir : string) : M (list string) :=
  fun w =>
    match fs w !! dir with
    | Some Dir => (Returned (omap (entry_name dir) (elements (dom (fs w)))), w)
    | Some (File _) => (Raised (OSError "Not a directory"), w)
    | None => (Raised (OSError "No such file or directory"), w)
    end.

(** The body of the last loop, [for filename in os.listdir(out_dir)]. *)
Definition rename_tif (out_dir filename : string) : M unit :=
  let infilename := os_path_join out_dir filename in
  let* is_file := isfile infilename in
  if is_file then
    let '(oldbase, ext) := splitext filename in
    if String.eqb (upper ext) ".TIF"
    then os_rename infilename (os_path_join out_dir (oldbase +:+ ".tif"))
    else ret tt
  else ret tt.

(** The last loop: [for filename in os.listdir(out_dir): ...]. *)
Definition rename_pass (out_dir : string) : M unit :=
  let* names := listdir out_dir in
  for_each (rename_tif out_dir) names.

(** The script up to the end of the loop over the datasets: the API key and
    the candidates found. *)
Definition collect_downloads (env : Env) (args : Args)
  : M (string * list Download.t) :=
  let* datasetNames :=
    lift (get_valid_datasets (today env) (start_date args) (end_date args)) in
  print ("Using datasets: " +:+ repr_list datasetNames) ;;
  let payload := LoginPayload (username args) (token args) in
  let* apiKey :=
    sendRequest (login_reply env) (serviceUrl +:+ "login-token") payload None in
  let* all_downloads := search_datasets env args apiKey datasetNames [] in
  ret (apiKey, all_downloads).

(** The rest of the script, from [if not all_downloads]. *)
Definition submit_and_fetch (env : Env) (args : Args) (apiKey : string)
    (all_downloads : list Download.t) : M unit :=
  match all_downloads with
  | [] =>
      print "No valid downloads found." ;;
      sys_exit 0
  | _ :: _ =>
      let label := now_label env in
      let payload := RequestPayload all_downloads label in
      let* requestResults :=
        sendRequest (request_reply env) (serviceUrl +:+ "download-request")
          payload (Some apiKey) in
      let available :=
        default [] (RequestResults.availableDownloads requestResults) in
      print (nl +:+ pretty (length available) +:+ " files ready for download.") ;;
      makedirs (out_dir args) ;;
      for_each (fun item => downloadFile env (Available.url item) (out_dir args))
        available ;;
      rename_pass (out_dir args) ;;
      print "Download complete."
  end.

Definition main (env : Env) (args : Args) : M unit :=
  let* r := collect_downloads env args in
  submit_and_fetch env args (fst r) (snd r).

(** ** Vocabulary of the properties *)

(** A call of [sendRequest] on the [download-request] endpoint. *)
Definition is_download_request (ev : event) : Prop :=
  match ev with
  | Post url _ _ => url = serviceUrl +:+ "download-request"
  | Get _ => False
  end.

(** The names the last loop acts on: those whose extension, upper-cased,
    is [.TIF]. *)
Definition tif_name (name : string) : Prop :=
  upper (snd (splitext name)) = ".TIF".

(** The file [n], of base [b] and content [c], has been moved to its
    lower-case name in [out_dir]. *)
Definition moved (out_dir n b : string) (c : list ascii) (w : world) : Prop :=
  fs w !! os_path_join out_dir (b +:+ ".tif") = Some (File c) /\
  (n <> b +:+ ".tif" -> fs w !! os_path_join out_dir n = None).

(** The name [m] is not another name that the pass renames to the target
    of the name [n] of base [b]. *)
Definition alone (n b m : string) : Prop :=
  m <> n -> tif_name m -> fst (splitext m) <> b.

(** The dataset a request searches, when it is a scene search. *)
Definition searched (ev : event) : option string :=
  match ev with
  | Post _ (SearchPayload datasetName _ _ _ _ _ _ _) _ => Some datasetName
  | _ => None
  end.

(** The text [yyyy-mm-dd] of a date, the form the command line asks for. *)
Definition digit_char (n : Z) : ascii := ascii_of_nat (Z.to_nat (48 + n)).

Definition iso_text (d : date) : string :=
  let y := Date.year d in
  let m := Date.month d in
  let a := Date.day d in
  string_of_list_ascii
    [digit_char (y / 1000); digit_char (y / 100 mod 10);
     digit_char (y / 10 mod 10); digit_char (y mod 10); "-"%char;
     digit_char (m / 10); digit_char (m mod 10); "-"%char;
     digit_char (a / 10); digit_char (a mod 10)].

(** The computation [m] never ends in [sys.exit]. *)
Definition never_exits {A} (m : M A) : Prop :=
  forall w c w', m w <> (Exited c, w').

(** A request other than the login, sent with the headers [sendRequest]
    builds for the key [apiKey]. *)
Definition with_key (apiKey : string) (ev : event) : Prop :=
  match ev with
  | Post _ (LoginPayload _ _) _ => False
  | Post _ _ headers => headers = request_headers (Some apiKey)
  | Get _ => False
  end.

(** The computation [m] only adds requests to the log, and each request it
    adds satisfies [P]. *)
Definition emits {A} (P : event -> Prop) (m : M A) : Prop :=
  forall w, exists evs, net (snd (m w)) = net w ++ evs /\ Forall P evs.

(** ** A sample run *)

(** A service that accepts the login, finds one scene per dataset, refuses
    the first download-options request and answers the later ones with one
    option record; three files are then offered. *)
Module Sample.

Definition item (displayId : string) (bulk : bool) : Item.t :=
  Item.Build "LC08_E1" ("P_" +:+ displayId) displayId bulk.

Definition rows : list OptionRow.t :=
  [OptionRow.Build
     (Some [item "LC08_ST_B10_ST_B6" true;
            item "LC08_QA_PIXEL" false;
            item "LC08_SR_B4" true;
            item "LC08_QA_PIXEL_TIF" true]);
   OptionRow.Build None].

Definition count_options (h : list event) : nat :=
  length (List.filter (fun ev =>
    match ev with
    | Post _ (OptionsPayload _ _ _) _ => true
    | _ => false
    end) h).

Definition env : Env := {|
  today := Date.Build 2026 11 4;
  now_label := "20261104_120000";
  login_reply := fun _ => Response 200 (Some (Some "KEY"));
  search_reply := fun _ => Response 200 (Some (Some (Some [Scene.Build "LC08_E1"])));
  options_reply := fun h =>
    if (count_options h =? 1)%nat then Response 500 None
    else Response 200 (Some (Some rows));
  request_reply := fun _ =>
    Response 200 (Some (Some (RequestResults.Build
      (Some [Available.Build "https://dds/1"; Available.Build "https://dds/2";
             Available.Build "https://dds/3"]))));
  download_reply := fun h =>
    match last h with
    | Some (Get "https://dds/1") =>
        GetResponse (Some "attachment; filename=SCENE1.TIF") (Ok ["I"%char; "I"%char])
    | Some (Get "https://dds/2") =>
        GetResponse (Some "attachment; filename=scene3.Tif") (Err (RequestException "reset"))
    | _ => GetResponse (Some "attachment") (Ok [])
    end;
  open_fault := fun _ _ => None
|}.

(** The same service when no scene is ever found. *)
Definition env_no_scene : Env := {|
  today := today env;
  now_label := now_label env;
  login_reply := login_reply env;
  search_reply := fun _ => Response 200 (Some (Some (Some [])));
  options_reply := options_reply env;
  request_reply := request_reply env;
  download_reply := download_reply env;
  open_fault := open_fault env
|}.

Definition args : Args := {|
  username := "user";
  token := "secret";
  bbox := (11.25%float, 44.25%float, 11.5%float, 44.75%float);
  start_date := "2012-01-01";
  end_date := "2014-01-01";
  city := "Bologna";
  out_dir := "out"
|}.

Definition start : world :=
  World [] []
    {[ "out/scene2.tif" := File ["x"%char]; "out/readme.TXT" := File [] ]}.

(** The candidates found by the loop over the two datasets, and the
    state after it. *)
Definition found : list Download.t * world :=
  match search_datasets env args "KEY"
          ["landsat_ot_c2_l2"; "landsat_etm_c2_l2"] [] start with
  | (Returned acc, w) => (acc, w)
  | (_, w) => ([], w)
  end.

(** The state after the scene search of the first dataset, and after its
    download-options request. *)
Definition after_search : world :=
  snd (sendRequest (search_reply env) (serviceUrl +:+ "scene-search")
         (search_payload args "landsat_ot_c2_l2") (Some "KEY")
         (add_line (nl +:+ "Searching dataset: " +:+ "landsat_ot_c2_l2") start)).

Definition after_options : world :=
  snd (sendRequest (options_reply env) (serviceUrl +:+ "download-options")
         (options_payload "landsat_ot_c2_l2" ["LC08_E1"]) (Some "KEY")
         after_search).

(** The same service when the scene search times out, when the login is
    refused, and when the download request is turned down. *)
Definition env_search_down : Env := {|
  today := today env;
  now_label := now_label env;
  login_reply := login_reply env;
  search_reply := fun _ => NoResponse (RequestException "timed out");
  options_reply := options_reply env;
  request_reply := request_reply env;
  download_reply := download_reply env;
  open_fault := open_fault env
|}.

Definition env_login_refused : Env := {|
  today := today env;
  now_label := now_label env;
  login_reply := fun _ => Response 401 None;
  search_reply := search_reply env;
  options_reply := options_reply env;
  request_reply := request_reply env;
  download_reply := download_reply env;
  open_fault := open_fault env
|}.

Definition env_request_down : Env := {|
  today := today env;
  now_label := now_label env;
  login_reply := login_reply env;
  search_reply := search_reply env;
  options_reply := options_reply env;
  request_reply := fun _ => Response 503 None;
  download_reply := download_reply env;
  open_fault := open_fault env
|}.

(** The state of a run right before its first scene search. *)
Definition logged_in (e : Env) : world :=
  snd (sendRequest (login_reply e) (serviceUrl +:+ "login-token")
         (LoginPayload (username args) (token args)) None
         (add_line ("Using datasets: " +:+
                    repr_list ["landsat_ot_c2_l2"; "landsat_etm_c2_l2"]) start)).

End Sample.

(** * Properties *)

(** ** The order on dates *)

Module DateFacts.
Import Date.

Lemma leb_le a b : leb a b = true <-> le a b.
Proof.
  unfold leb, cmp, le. destruct a as [y1 m1 d1], b as [y2 m2 d2]; simpl.
  destruct (Z.compare_spec y1 y2); [|split; [lia | reflexivity]|split; [discriminate | lia]].
  destruct (Z.compare_spec m1 m2); [|split; [lia | reflexivity]|split; [discriminate | lia]].
  destruct (Z.compare_spec d1 d2); split; (lia || reflexivity || discriminate).
Qed.

Lemma ltb_not_le a b : ltb a b = true <-> ~ le b a.
Proof.
  unfold ltb, cmp, le. destruct a as [y1 m1 d1], b as [y2 m2 d2]; simpl.
  destruct (Z.compare_spec y1 y2); [|split; [lia | reflexivity]|split; [discriminate | lia]].
  destruct (Z.compare_spec m1 m2); [|split; [lia | reflexivity]|split; [discriminate | lia]].
  destruct (Z.compare_spec d1 d2); split; (lia || reflexivity || discriminate).
Qed.

Lemma le_refl a : le a a.
Proof. unfold le. lia. Qed.

Lemma le_trans a b c : le a b -> le b c -> le a c.
Proof. unfold le. lia. Qed.

Lemma le_total a b : le a b \/ le b a.
Proof. unfold le. lia. Qed.

Lemma le_antisym a b : le a b -> le b a -> a = b.
Proof.
  destruct a, b; unfold le; simpl; intros.
  f_equal; lia.
Qed.

Lemma le_dec a b : {le a b} + {~ le a b}.
Proof.
  destruct (leb a b) eqn:E.
  - left. now apply leb_le.
  - right. intros H. apply leb_le in H. congruence.
Qed.

(** [max] is a least upper bound and [min] a greatest lower bound. *)
Lemma max_le a b c : le (max a b) c <-> le a c /\ le b c.
Proof.
  unfold max. destruct (ltb a b) eqn:E.
  - apply ltb_not_le in E.
    split; [|tauto]. intros H; split; [|exact H].
    destruct (le_total a b); [eauto using le_trans | tauto].
  - assert (le b a) as Hba.
    { destruct (le_dec b a) as [|N]; [assumption|].
      apply ltb_not_le in N. congruence. }
    split; [|tauto]. intros H; split; eauto using le_trans.
Qed.

Lemma le_min a b c : le c (min a b) <-> le c a /\ le c b.
Proof.
  unfold min. destruct (ltb b a) eqn:E.
  - apply ltb_not_le in E.
    split; [|tauto]. intros H; split; [|exact H].
    destruct (le_total a b); [tauto | eauto using le_trans].
  - assert (le a b) as Hab.
    { destruct (le_dec a b) as [|N]; [assumption|].
      apply ltb_not_le in N. congruence. }
    split; [|tauto]. intros H; split; eauto using le_trans.
Qed.

End DateFacts.

(** [overlaps] holds exactly when each start is on or before each end. *)
Lemma overlaps_le s1 e1 s2 e2 :
  overlaps s1 e1 s2 e2 = true <->
  Date.le s1 e1 /\ Date.le s1 e2 /\ Date.le s2 e1 /\ Date.le s2 e2.
Proof.
  unfold overlaps.
  rewrite DateFacts.leb_le, DateFacts.max_le, !DateFacts.le_min. tauto.
Qed.

Lemma overlaps_max_min s1 e1 s2 e2 :
  overlaps s1 e1 s2 e2 = true <-> Date.le (Date.max s1 s2) (Date.min e1 e2).
Proof. unfold overlaps. apply DateFacts.leb_le. Qed.

(** Two intervals overlap exactly when some day lies in both. *)
Lemma overlaps_common_day s1 e1 s2 e2 :
  overlaps s1 e1 s2 e2 = true <->
  exists x, Date.le s1 x /\ Date.le x e1 /\ Date.le s2 x /\ Date.le x e2.
Proof.
  rewrite overlaps_le. split.
  - intros (H1 & H2 & H3 & H4).
    destruct (DateFacts.le_total s1 s2).
    + exists s2. auto using DateFacts.le_refl.
    + exists s1. auto using DateFacts.le_refl.
  - intros (x & H1 & H2 & H3 & H4). eauto 10 using DateFacts.le_trans.
Qed.

(** C7.  The overlap test is symmetric in its two intervals, and inclusive
    at the endpoints: an interval reduced to the day [d] overlaps any
    interval that starts on [d]; so the one-day window 1999-04-15, the first
    day of the ETM+ interval, selects the ETM+ catalogue. *)
Theorem overlaps_comm_inclusive :
  (forall s1 e1 s2 e2, overlaps s1 e1 s2 e2 = overlaps s2 e2 s1 e1) /\
  (forall d e, Date.le d e -> overlaps d d d e = true) /\
  (forall today, exists l,
      get_valid_datasets today "1999-04-15" "1999-04-15" = Ok l /\
      landsat_etm ∈ l).
Proof.
  split; [|split].
  - intros. apply eq_true_iff_eq. rewrite !overlaps_le. tauto.
  - intros d e H. apply overlaps_le. auto using DateFacts.le_refl.
  - intros today. eexists. split; [reflexivity|].
    apply elem_of_elements.
    replace (overlaps _ _ (Date.Build 1999 4 15) _) with true by reflexivity.
    destruct (overlaps _ _ (Date.Build 2013 2 11) today); set_solver.
Qed.

Lemma overlaps_comm_inclusive_witness :
  Date.le (Date.Build 1999 4 15) (Date.Build 2022 4 6) /\
  overlaps (Date.Build 1999 4 15) (Date.Build 1999 4 15)
           (Date.Build 1999 4 15) (Date.Build 2022 4 6) = true.
Proof.
  assert (Date.le (Date.Build 1999 4 15) (Date.Build 2022 4 6)) as H
    by (unfold Date.le; simpl; lia).
  split; [exact H|].
  exact (proj1 (proj2 overlaps_comm_inclusive) _ _ H).
Defined.

(** ** Dataset selection *)

(** What [get_valid_datasets] returns once both dates are parsed. *)
Lemma get_valid_datasets_parsed today s e d1 d2 :
  Strptime.strptime s = Ok d1 ->
  Strptime.strptime e = Ok d2 ->
  exists l,
    get_valid_datasets today s e = Ok l /\
    NoDup l /\
    forall x, x ∈ l <->
      (x = landsat_tm /\ overlaps d1 d2 tm_start tm_end = true) \/
      (x = landsat_etm /\ overlaps d1 d2 etm_start etm_end = true) \/
      (x = landsat_ot /\ overlaps d1 d2 ot_start today = true).
Proof.
  intros Hs He. unfold get_valid_datasets. rewrite Hs, He.
  eexists. split; [reflexivity|]. split; [apply NoDup_elements|].
  intros x. rewrite elem_of_elements.
  fold tm_start tm_end etm_start etm_end ot_start.
  destruct (overlaps d1 d2 tm_start tm_end),
           (overlaps d1 d2 etm_start etm_end),
           (overlaps d1 d2 ot_start today);
    rewrite ?elem_of_union, ?elem_of_singleton, ?elem_of_empty;
    intuition (discriminate || auto).
Qed.

Lemma dataset_names_distinct :
  landsat_tm <> landsat_etm /\ landsat_tm <> landsat_ot /\ landsat_etm <> landsat_ot.
Proof. repeat split; discriminate. Qed.

(** C1.  For two dates that parse, the first not after the second, the
    call returns a list without repetition, made of the three identifiers
    only, in which each identifier occurs exactly when
    [max(start, s) <= min(end, e)] for its sensor interval [s, e]:
    TM 1982-07-16 to 2011-06-05, ETM+ 1999-04-15 to 2022-04-06, OLI/TIRS
    2013-02-11 to today. *)
Theorem get_valid_datasets_overlap today s e d1 d2 :
  Strptime.strptime s = Ok d1 ->
  Strptime.strptime e = Ok d2 ->
  Date.le d1 d2 ->
  exists l,
    get_valid_datasets today s e = Ok l /\
    NoDup l /\
    (forall x, x ∈ l -> x = landsat_tm \/ x = landsat_etm \/ x = landsat_ot) /\
    (landsat_tm ∈ l <->
       Date.le (Date.max d1 (Date.Build 1982 7 16)) (Date.min d2 (Date.Build 2011 6 5))) /\
    (landsat_etm ∈ l <->
       Date.le (Date.max d1 (Date.Build 1999 4 15)) (Date.min d2 (Date.Build 2022 4 6))) /\
    (landsat_ot ∈ l <->
       Date.le (Date.max d1 (Date.Build 2013 2 11)) (Date.min d2 today)).
Proof.
  intros Hs He _.
  destruct (get_valid_datasets_parsed today s e d1 d2 Hs He) as (l & Hl & Hnd & Hin).
  destruct dataset_names_distinct as (N1 & N2 & N3).
  exists l. split; [exact Hl|]. split; [exact Hnd|].
  rewrite <- !overlaps_max_min. fold tm_start tm_end etm_start etm_end ot_start.
  repeat split; try (rewrite Hin; clear Hin; intuition congruence).
  intros x Hx. apply Hin in Hx. tauto.
Qed.

Lemma get_valid_datasets_overlap_witness :
  exists l,
    get_valid_datasets (Date.Build 2026 11 4) "2000-01-01" "2015-12-31" = Ok l /\
    NoDup l /\
    (forall x, x ∈ l -> x = landsat_tm \/ x = landsat_etm \/ x = landsat_ot) /\
    (landsat_tm ∈ l <->
       Date.le (Date.max (Date.Build 2000 1 1) (Date.Build 1982 7 16))
               (Date.min (Date.Build 2015 12 31) (Date.Build 2011 6 5))) /\
    (landsat_etm ∈ l <->
       Date.le (Date.max (Date.Build 2000 1 1) (Date.Build 1999 4 15))
               (Date.min (Date.Build 2015 12 31) (Date.Build 2022 4 6))) /\
    (landsat_ot ∈ l <->
       Date.le (Date.max (Date.Build 2000 1 1) (Date.Build 2013 2 11))
               (Date.min (Date.Build 2015 12 31) (Date.Build 2026 11 4))).
Proof.
  apply (get_valid_datasets_overlap (Date.Build 2026 11 4)
           "2000-01-01" "2015-12-31" (Date.Build 2000 1 1) (Date.Build 2015 12 31)).
  - reflexivity.
  - reflexivity.
  - unfold Date.le; simpl; lia.
Defined.

(** C2, as the specification words it, fails: for the window 2012-01-01 to
    2014-01-01 the TM catalogue is not selected and the ETM+ catalogue is. *)
Lemma window_2012_2014_not_tm_and_ot :
  ~ (exists l,
       get_valid_datasets (Date.Build 2026 11 4) "2012-01-01" "2014-01-01" = Ok l /\
       landsat_tm ∈ l /\ landsat_ot ∈ l /\ ~ landsat_etm ∈ l).
Proof.
  intros (l & Hl & Htm & _ & _).
  destruct (get_valid_datasets_parsed (Date.Build 2026 11 4)
              "2012-01-01" "2014-01-01" (Date.Build 2012 1 1) (Date.Build 2014 1 1)
              eq_refl eq_refl) as (l' & Hl' & _ & Hin).
  rewrite Hl in Hl'. injection Hl' as <-.
  apply Hin in Htm.
  destruct dataset_names_distinct as (N1 & N2 & N3).
  destruct Htm as [[_ H]|[[H _]|[H _]]]; [|congruence|congruence].
  vm_compute in H. discriminate.
Qed.

(** C2, amended.  For the window 2012-01-01 to 2014-01-01, on any day from
    2013-02-11 on, the call returns exactly the ETM+ and the OLI/TIRS
    identifiers; the TM identifier, whose interval ended on 2011-06-05, is
    left out. *)
Theorem window_2012_2014_etm_and_ot today :
  Date.le (Date.Build 2013 2 11) today ->
  exists l,
    get_valid_datasets today "2012-01-01" "2014-01-01" = Ok l /\
    NoDup l /\
    ~ landsat_tm ∈ l /\
    forall x, x ∈ l <-> x = landsat_etm \/ x = landsat_ot.
Proof.
  intros Htoday.
  destruct (get_valid_datasets_parsed today
              "2012-01-01" "2014-01-01" (Date.Build 2012 1 1) (Date.Build 2014 1 1)
              eq_refl eq_refl) as (l & Hl & Hnd & Hin).
  exists l. split; [exact Hl|]. split; [exact Hnd|].
  assert (overlaps (Date.Build 2012 1 1) (Date.Build 2014 1 1) ot_start today = true) as Hot.
  { apply overlaps_le. repeat split; try (unfold Date.le; simpl; lia).
    - apply DateFacts.le_trans with ot_start; [unfold Date.le; simpl; lia | exact Htoday].
    - exact Htoday. }
  destruct dataset_names_distinct as (N1 & N2 & N3).
  assert (forall x, x ∈ l <-> x = landsat_etm \/ x = landsat_ot) as Hchar.
  { intros x. rewrite Hin, Hot.
    replace (overlaps _ _ tm_start tm_end) with false by reflexivity.
    replace (overlaps _ _ etm_start etm_end) with true by reflexivity.
    intuition congruence. }
  split; [|exact Hchar].
  rewrite Hchar. intuition congruence.
Qed.

Lemma window_2012_2014_etm_and_ot_witness :
  exists l,
    get_valid_datasets (Date.Build 2026 11 4) "2012-01-01" "2014-01-01" = Ok l /\
    NoDup l /\
    ~ landsat_tm ∈ l /\
    forall x, x ∈ l <-> x = landsat_etm \/ x = landsat_ot.
Proof.
  apply (window_2012_2014_etm_and_ot (Date.Build 2026 11 4)).
  unfold Date.le; simpl; lia.
Defined.

(** C9.  Widening the window never removes a dataset: if the window
    [s1, e1] lies within [s2, e2], every identifier selected for the first
    is selected for the second (same [today]). *)
Theorem get_valid_datasets_monotone today s1 e1 s2 e2 a1 b1 a2 b2 :
  Strptime.strptime s1 = Ok a1 ->
  Strptime.strptime e1 = Ok b1 ->
  Strptime.strptime s2 = Ok a2 ->
  Strptime.strptime e2 = Ok b2 ->
  Date.le a2 a1 ->
  Date.le b1 b2 ->
  exists l1 l2,
    get_valid_datasets today s1 e1 = Ok l1 /\
    get_valid_datasets today s2 e2 = Ok l2 /\
    forall x, x ∈ l1 -> x ∈ l2.
Proof.
  intros H1 H2 H3 H4 Hs He.
  destruct (get_valid_datasets_parsed today s1 e1 a1 b1 H1 H2) as (l1 & Hl1 & _ & Hin1).
  destruct (get_valid_datasets_parsed today s2 e2 a2 b2 H3 H4) as (l2 & Hl2 & _ & Hin2).
  exists l1, l2. split; [exact Hl1|]. split; [exact Hl2|].
  assert (forall s e, overlaps a1 b1 s e = true -> overlaps a2 b2 s e = true) as Hmono.
  { intros s e. rewrite !overlaps_le. intros (P1 & P2 & P3 & P4).
    repeat split; eauto using DateFacts.le_trans. }
  intros x. rewrite Hin1, Hin2. intuition auto.
Qed.

Lemma get_valid_datasets_monotone_witness :
  exists l1 l2,
    get_valid_datasets (Date.Build 2026 11 4) "2012-01-01" "2012-12-31" = Ok l1 /\
    get_valid_datasets (Date.Build 2026 11 4) "2010-01-01" "2014-01-01" = Ok l2 /\
    forall x, x ∈ l1 -> x ∈ l2.
Proof.
  apply (get_valid_datasets_monotone (Date.Build 2026 11 4)
           "2012-01-01" "2012-12-31" "2010-01-01" "2014-01-01"
           (Date.Build 2012 1 1) (Date.Build 2012 12 31)
           (Date.Build 2010 1 1) (Date.Build 2014 1 1));
    try reflexivity; unfold Date.le; simpl; lia.
Defined.

(** ** Substrings *)

Lemma prefix_app sub s :
  String.prefix sub s = true <-> exists post, s = sub +:+ post.
Proof.
  revert s. induction sub as [|a sub IH]; intros s.
  - destruct s; simpl; (split; [intros _; eexists; reflexivity | reflexivity]).
  - destruct s as [|b s]; simpl.
    + split; [discriminate | intros [post H]; discriminate].
    + destruct (Ascii.ascii_dec a b) as [->|Hab].
      * rewrite IH. split; intros [post H]; exists post.
        -- now rewrite H.
        -- now injection H.
      * split; [discriminate|]. intros [post H]. injection H as H1 H2. congruence.
Qed.

Lemma contains_occurs_in sub s : contains sub s = true <-> occurs_in sub s.
Proof.
  unfold occurs_in. induction s as [|a s IH].
  - change (contains sub "") with (String.prefix sub "" || false).
    rewrite orb_false_r, prefix_app. split.
    + intros [post H]. exists "", post. exact H.
    + intros (pre & post & H). destruct pre; simpl in H.
      * eauto.
      * discriminate.
  - change (contains sub (String a s))
      with (String.prefix sub (String a s) || contains sub s).
    rewrite orb_true_iff, prefix_app, IH. split.
    + intros [[post H]|(pre & post & H)].
      * exists "", post. exact H.
      * exists (String a pre), post. simpl. now rewrite H.
    + intros (pre & post & H). destruct pre as [|b pre]; simpl in H.
      * left. eauto.
      * right. injection H as H1 H2. eauto.
Qed.

#[global] Instance occurs_in_dec sub s : Decision (occurs_in sub s).
Proof.
  destruct (contains sub s) eqn:E.
  - left. now apply contains_occurs_in.
  - right. intros H. apply contains_occurs_in in H. congruence.
Defined.

(** ** Selection of the candidates *)

(** The loop over the band names appends one copy of the candidate for each
    band name found in the display identifier. *)
Lemma scan_bands_copies item bands all_downloads :
  fold_left (scan_band item) bands all_downloads =
  all_downloads ++
    (if Item.bulkAvailable item
     then replicate (length (filter (fun b => occurs_in b (Item.displayId item)) bands))
            (candidate item)
     else []).
Proof.
  revert all_downloads. induction bands as [|b bands IH]; intros acc; simpl.
  - destruct (Item.bulkAvailable item); now rewrite app_nil_r.
  - rewrite IH. unfold scan_band.
    rewrite filter_cons.
    destruct (Item.bulkAvailable item); simpl; [|reflexivity].
    destruct (contains b (Item.displayId item)) eqn:E.
    + apply contains_occurs_in in E. rewrite decide_True by exact E.
      simpl. now rewrite <- app_assoc.
    + rewrite decide_False; [reflexivity|].
      intros H. apply contains_occurs_in in H. congruence.
Qed.

(** C3.  Scanning an item appends to the accumulator only copies of the
    item's candidate, and appends at least one exactly when the item's
    [bulkAvailable] flag is true and its [displayId] contains one of
    [QA_PIXEL], [ST_B10], [ST_B6]. *)
Theorem scan_item_appends_iff item all_downloads :
  exists added,
    scan_item all_downloads item = all_downloads ++ added /\
    (forall d, d ∈ added -> d = candidate item) /\
    (added <> [] <->
       Item.bulkAvailable item = true /\
       (occurs_in "QA_PIXEL" (Item.displayId item) \/
        occurs_in "ST_B10" (Item.displayId item) \/
        occurs_in "ST_B6" (Item.displayId item))).
Proof.
  unfold scan_item. rewrite scan_bands_copies.
  eexists. split; [reflexivity|].
  destruct (Item.bulkAvailable item).
  - split.
    + intros d Hd. now apply elem_of_replicate in Hd.
    + unfold bandNames. rewrite !filter_cons, filter_nil.
      destruct (decide (occurs_in "QA_PIXEL" (Item.displayId item))),
               (decide (occurs_in "ST_B10" (Item.displayId item))),
               (decide (occurs_in "ST_B6" (Item.displayId item)));
        simpl; split; intros; try tauto; try discriminate.
  - split.
    + intros d Hd. now apply elem_of_nil in Hd.
    + split; [congruence | intros [? _]; discriminate].
Qed.

(** ** Requests made by the script *)

Section Emits.
Context (P : event -> Prop).

Lemma emits_ret {A} (a : A) : emits P (ret a).
Proof. intros w. exists []. simpl. now rewrite app_nil_r. Qed.

Lemma emits_raise {A} (e : exn) : emits P (@raise A e).
Proof. intros w. exists []. simpl. now rewrite app_nil_r. Qed.

Lemma emits_sys_exit {A} (c : Z) : emits P (@sys_exit A c).
Proof. intros w. exists []. simpl. now rewrite app_nil_r. Qed.

Lemma emits_lift {A} (r : result A) : emits P (lift r).
Proof. destruct r; [apply emits_ret | apply emits_raise]. Qed.

Lemma emits_print s : emits P (print s).
Proof. intros w. exists []. simpl. now rewrite app_nil_r. Qed.

Lemma emits_bind {A B} (m : M A) (f : A -> M B) :
  emits P m -> (forall a, emits P (f a)) -> emits P (bind m f).
Proof.
  intros Hm Hf w. unfold bind.
  destruct (Hm w) as (evs1 & E1 & F1).
  destruct (m w) as [[a|e|c] w1]; simpl in E1; simpl; eauto.
  destruct (Hf a w1) as (evs2 & E2 & F2).
  exists (evs1 ++ evs2). rewrite E2, E1, app_assoc.
  split; [reflexivity | now apply Forall_app].
Qed.

Lemma emits_try_except {A} (m : M A) (h : exn -> M A) :
  emits P m -> (forall e, emits P (h e)) -> emits P (try_except m h).
Proof.
  intros Hm Hh w. unfold try_except.
  destruct (Hm w) as (evs1 & E1 & F1).
  destruct (m w) as [[a|e|c] w1]; simpl in E1; simpl; eauto.
  destruct (Hh e w1) as (evs2 & E2 & F2).
  exists (evs1 ++ evs2). rewrite E2, E1, app_assoc.
  split; [reflexivity | now apply Forall_app].
Qed.

Lemma emits_for_acc {A S} (body : A -> S -> M S) l s :
  (forall x s, emits P (body x s)) -> emits P (for_acc body l s).
Proof.
  intros Hb. revert s. induction l as [|x l IH]; intros s; simpl.
  - apply emits_ret.
  - apply emits_bind; auto.
Qed.

Lemma emits_for_each {A} (body : A -> M unit) l :
  (forall x, emits P (body x)) -> emits P (for_each body l).
Proof. intros Hb. apply emits_for_acc. auto. Qed.

Lemma sendRequest_net {A} (reply : list event -> http_reply A) url data apiKey w :
  net (snd (sendRequest reply url data apiKey w)) =
  net w ++ [Post url data (request_headers apiKey)].
Proof.
  unfold sendRequest.
  destruct (reply _) as [e|st [[d|]|]]; simpl; try reflexivity;
    destruct ((400 <=? st) && (st <? 600)); reflexivity.
Qed.

Lemma emits_sendRequest {A} (reply : list event -> http_reply A) url data apiKey :
  (forall headers, P (Post url data headers)) ->
  emits P (sendRequest reply url data apiKey).
Proof.
  intros HP w. eexists. split; [apply sendRequest_net|].
  repeat constructor. apply HP.
Qed.

Lemma emits_requests_get env url :
  P (Get url) -> emits P (requests_get env url).
Proof.
  intros HP w. unfold requests_get. exists [Get url].
  split; [|repeat constructor; exact HP].
  destruct (download_reply env (net (log_event (Get url) w))); reflexivity.
Qed.

Lemma emits_fs_only {A} (m : M A) :
  (forall w, net (snd (m w)) = net w) -> emits P m.
Proof. intros H w. exists []. now rewrite H, app_nil_r. Qed.

End Emits.

Lemma not_download_request_post url data headers :
  url <> serviceUrl +:+ "download-request" ->
  ~ is_download_request (Post url data headers).
Proof. intros H. exact H. Qed.

Lemma search_dataset_emits env args apiKey datasetName all_downloads :
  emits (fun ev => ~ is_download_request ev)
    (search_dataset env args apiKey datasetName all_downloads).
Proof.
  unfold search_dataset.
  apply emits_bind; [apply emits_print|intros _].
  apply emits_bind.
  { apply emits_sendRequest. intros hs. apply not_download_request_post. discriminate. }
  intros [[|sc results]|].
  - apply emits_bind; [apply emits_print | intros _; apply emits_ret].
  - apply emits_bind.
    + apply emits_try_except.
      * apply emits_bind; [|intros o; apply emits_ret].
        apply emits_sendRequest. intros hs. apply not_download_request_post. discriminate.
      * intros e. apply emits_bind; [apply emits_print | intros _; apply emits_ret].
    + intros [o|]; apply emits_ret.
  - apply emits_bind; [apply emits_print | intros _; apply emits_ret].
Qed.

(** Up to the end of the loop over the datasets the script calls the
    endpoints [login-token], [scene-search] and [download-options] only. *)
Lemma collect_downloads_emits env args :
  emits (fun ev => ~ is_download_request ev) (collect_downloads env args).
Proof.
  unfold collect_downloads.
  apply emits_bind; [apply emits_lift | intros datasetNames].
  apply emits_bind; [apply emits_print | intros _].
  apply emits_bind.
  { apply emits_sendRequest. intros hs. apply not_download_request_post. discriminate. }
  intros apiKey. apply emits_bind; [|intros acc; apply emits_ret].
  apply emits_for_acc. intros d acc. apply search_dataset_emits.
Qed.

(** C4.  With an empty accumulator the rest of the script prints its
    message and exits with status 0 without touching the network or the
    files; hence a run whose loop over the datasets ends with no candidate
    exits with status 0, its last line being the message, and has made no
    call to the [download-request] endpoint. *)
Theorem empty_accumulator_exits env args :
  (forall apiKey w,
     submit_and_fetch env args apiKey [] w =
     (Exited 0, add_line "No valid downloads found." w)) /\
  (forall w apiKey w1,
     collect_downloads env args w = (Returned (apiKey, []), w1) ->
     exists w2 evs,
       main env args w = (Exited 0, w2) /\
       last (stdout w2) = Some "No valid downloads found." /\
       fs w2 = fs w1 /\
       net w2 = net w ++ evs /\
       Forall (fun ev => ~ is_download_request ev) evs).
Proof.
  split; [reflexivity|].
  intros w apiKey w1 H.
  destruct (collect_downloads_emits env args w) as (evs & E & F).
  rewrite H in E. simpl in E.
  exists (add_line "No valid downloads found." w1), evs.
  repeat split; try assumption.
  - unfold main, bind. rewrite H. reflexivity.
  - simpl. apply last_snoc.
Qed.

Lemma empty_accumulator_exits_witness :
  exists w2 evs,
    main Sample.env_no_scene Sample.args Sample.start = (Exited 0, w2) /\
    last (stdout w2) = Some "No valid downloads found." /\
    fs w2 = fs (snd (collect_downloads Sample.env_no_scene Sample.args Sample.start)) /\
    net w2 = net Sample.start ++ evs /\
    Forall (fun ev => ~ is_download_request ev) evs.
Proof.
  apply (proj2 (empty_accumulator_exits Sample.env_no_scene Sample.args)
           Sample.start "KEY").
  vm_compute. reflexivity.
Defined.

(** ** Failure of a download-options request *)

(** C8.  When the scene search of a dataset finds scenes and its
    download-options request raises, the error is printed and the loop goes
    on with the remaining datasets, the accumulator being what it was
    before that dataset. *)
Theorem options_failure_skips_dataset
    env args apiKey datasetName rest all_downloads w sc results w1 e w2 :
  sendRequest (search_reply env) (serviceUrl +:+ "scene-search")
    (search_payload args datasetName) (Some apiKey)
    (add_line (nl +:+ "Searching dataset: " +:+ datasetName) w)
  = (Returned (Some (sc :: results)), w1) ->
  sendRequest (options_reply env) (serviceUrl +:+ "download-options")
    (options_payload datasetName (map Scene.entityId (sc :: results)))
    (Some apiKey) w1
  = (Raised e, w2) ->
  search_datasets env args apiKey (datasetName :: rest) all_downloads w =
  search_datasets env args apiKey rest all_downloads
    (add_line ("Error fetching download options for " +:+ datasetName
               +:+ ": " +:+ exn_str e) w2).
Proof.
  intros Hsearch Hoptions.
  unfold search_datasets. simpl for_acc.
  unfold search_dataset, bind at 1 2 3, print at 1.
  rewrite Hsearch.
  unfold bind at 1, try_except, bind at 1.
  rewrite Hoptions. reflexivity.
Qed.

Lemma options_failure_skips_dataset_witness :
  search_datasets Sample.env Sample.args "KEY"
    ["landsat_ot_c2_l2"; "landsat_etm_c2_l2"] [] Sample.start =
  search_datasets Sample.env Sample.args "KEY" ["landsat_etm_c2_l2"] []
    (add_line ("Error fetching download options for " +:+ "landsat_ot_c2_l2"
               +:+ ": " +:+ exn_str (HTTPError "500")) Sample.after_options).
Proof.
  apply (options_failure_skips_dataset Sample.env Sample.args "KEY"
           "landsat_ot_c2_l2" ["landsat_etm_c2_l2"] [] Sample.start
           (Scene.Build "LC08_E1") [] Sample.after_search).
  - vm_compute. reflexivity.
  - vm_compute. reflexivity.
Defined.

(** ** The accumulator only grows *)

Lemma scan_item_app all_downloads item :
  exists added, scan_item all_downloads item = all_downloads ++ added.
Proof. unfold scan_item. rewrite scan_bands_copies. eauto. Qed.

Lemma fold_left_grows {A B} (f : list A -> B -> list A) (l : list B) :
  (forall acc x, exists added, f acc x = acc ++ added) ->
  forall acc, exists added, fold_left f l acc = acc ++ added.
Proof.
  intros Hf. induction l as [|x l IH]; intros acc; simpl.
  - exists []. now rewrite app_nil_r.
  - destruct (Hf acc x) as [a1 E1]. destruct (IH (f acc x)) as [a2 E2].
    exists (a1 ++ a2). now rewrite E2, E1, app_assoc.
Qed.

Lemma scan_option_app all_downloads option :
  exists added, scan_option all_downloads option = all_downloads ++ added.
Proof.
  unfold scan_option.
  destruct (OptionRow.secondaryDownloads option) as [[|i items]|];
    try (exists []; now rewrite app_nil_r).
  apply fold_left_grows. intros; apply scan_item_app.
Qed.

Lemma scan_options_app options all_downloads :
  exists added, scan_options options all_downloads = all_downloads ++ added.
Proof. apply fold_left_grows. intros; apply scan_option_app. Qed.

Lemma search_dataset_grows env args apiKey datasetName all_downloads w acc' w' :
  search_dataset env args apiKey datasetName all_downloads w = (Returned acc', w') ->
  exists added, acc' = all_downloads ++ added.
Proof.
  unfold search_dataset, bind at 1 2, print at 1.
  destruct (sendRequest (search_reply env) _ _ _ _) as [[[[|sc results]|]|e|c] w1];
    try discriminate.
  - intros H. injection H as <- _. exists []. now rewrite app_nil_r.
  - unfold bind at 1, try_except, bind at 1.
    destruct (sendRequest (options_reply env) _ _ _ _) as [[o|e|c] w2];
      intros H; try discriminate; injection H as <- _.
    + apply scan_options_app.
    + exists []. now rewrite app_nil_r.
  - intros H. injection H as <- _. exists []. now rewrite app_nil_r.
Qed.

Lemma search_datasets_grows env args apiKey datasetNames all_downloads w acc' w' :
  search_datasets env args apiKey datasetNames all_downloads w = (Returned acc', w') ->
  exists added, acc' = all_downloads ++ added.
Proof.
  unfold search_datasets.
  revert all_downloads w. induction datasetNames as [|d ds IH]; intros acc w; simpl.
  - intros H. injection H as <- _. exists []. now rewrite app_nil_r.
  - unfold bind.
    destruct (search_dataset env args apiKey d acc w) as [[acc1|e|c] w1] eqn:E;
      try discriminate.
    intros H. apply IH in H as [a2 ->].
    apply search_dataset_grows in E as [a1 ->].
    exists (a1 ++ a2). now rewrite app_assoc.
Qed.

(** ** [downloadFile] *)

Lemma occurs_in_tail sub a s : occurs_in sub s -> occurs_in sub (String a s).
Proof. intros (pre & post & ->). now exists (String a pre), post. Qed.

Lemma match_filename_here_occurs s g :
  match_filename_here s = Some g -> occurs_in "filename=" s.
Proof.
  unfold match_filename_here.
  destruct (String.prefix "filename=" s) eqn:E; [|discriminate].
  intros _. apply prefix_app in E as [post ->]. now exists "", post.
Qed.

(** Without the text [filename=] in the header there is no match. *)
Lemma findall_filename_none s :
  ~ occurs_in "filename=" s -> findall_filename s = [].
Proof.
  unfold findall_filename. generalize 0%nat as skip.
  induction s as [|a s IH]; intros skip H; simpl; [reflexivity|].
  assert (~ occurs_in "filename=" s) as Hs by (intros O; apply H, occurs_in_tail, O).
  destruct skip as [|k]; [|now apply IH].
  destruct (match_filename_here (String a s)) as [g|] eqn:E.
  - exfalso. apply H. eapply match_filename_here_occurs, E.
  - now apply IH.
Qed.

Lemma downloadFile_returns env url path w :
  exists w', downloadFile env url path w = (Returned tt, w') /\
             net w' = net w ++ [Get url].
Proof.
  unfold downloadFile, try_except, bind at 1, requests_get.
  destruct (download_reply env _) as [e|disposition content].
  - eexists. split; reflexivity.
  - cbn [fst snd].
    destruct (findall_filename (default "" disposition)) as [|m0 ms].
    + eexists. split; reflexivity.
    + unfold bind at 1, print at 1, bind at 1, open_wb.
      cbn [fs add_line log_event].
      destruct (fs w !! os_path_join path (strip "034" m0)) as [[c|]|];
        try (eexists; split; reflexivity);
        (destruct (open_fault env (fs w) _) as [e|];
         [eexists; split; reflexivity|]);
        (destruct content as [bytes|e]; eexists; split; reflexivity).
Qed.

(** C6.  [downloadFile] always returns to its caller, whatever the network
    and the file system do; when the [content-disposition] header has no
    [filename=] in it (or is missing) the call returns after the warning,
    and the files are what they were.  So the loop over the available
    downloads requests every URL in turn and returns. *)
Theorem downloadFile_never_raises env path :
  (forall url w, exists w',
     downloadFile env url path w = (Returned tt, w') /\
     net w' = net w ++ [Get url]) /\
  (forall url w disposition content,
     download_reply env (net w ++ [Get url]) = GetResponse disposition content ->
     ~ occurs_in "filename=" (default "" disposition) ->
     downloadFile env url path w =
       (Returned tt,
        add_line "Could not find filename in content-disposition header."
          (log_event (Get url) w)) /\
     fs (snd (downloadFile env url path w)) = fs w) /\
  (forall available w, exists w',
     for_each (fun item => downloadFile env (Available.url item) path) available w
       = (Returned tt, w') /\
     net w' = net w ++ map (fun item => Get (Available.url item)) available).
Proof.
  split; [|split].
  - intros url w. apply downloadFile_returns.
  - intros url w disposition content Hreply Hnone.
    assert (downloadFile env url path w =
            (Returned tt,
             add_line "Could not find filename in content-disposition header."
               (log_event (Get url) w))) as E.
    { unfold downloadFile, try_except, bind at 1, requests_get.
      cbn [net log_event]. rewrite Hreply. cbn [fst snd].
      now rewrite (findall_filename_none _ Hnone). }
    split; [exact E|]. now rewrite E.
  - intros available. unfold for_each.
    induction available as [|item l IH]; intros w; simpl.
    + eexists. split; [reflexivity|]. now rewrite app_nil_r.
    + unfold bind.
      destruct (downloadFile_returns env (Available.url item) path w) as (w1 & E1 & N1).
      rewrite E1. destruct (IH w1) as (w2 & E2 & N2).
      exists w2. split; [exact E2|]. now rewrite N2, N1, <- app_assoc.
Qed.

Lemma downloadFile_never_raises_witness :
  downloadFile Sample.env "https://dds/3" "out" Sample.start =
    (Returned tt,
     add_line "Could not find filename in content-disposition header."
       (log_event (Get "https://dds/3") Sample.start)) /\
  fs (snd (downloadFile Sample.env "https://dds/3" "out" Sample.start)) = fs Sample.start.
Proof.
  apply (proj1 (proj2 (downloadFile_never_raises Sample.env "out"))
           "https://dds/3" Sample.start (Some "attachment") (Ok [])).
  - reflexivity.
  - intros H. apply contains_occurs_in in H. vm_compute in H. discriminate H.
Defined.

(** ** What is sent to [download-request] *)

Lemma downloadFile_emits P env url path :
  P (Get url) -> emits P (downloadFile env url path).
Proof.
  intros HP w. exists [Get url].
  destruct (downloadFile_returns env url path w) as (w' & -> & N).
  split; [exact N | repeat constructor; exact HP].
Qed.

Lemma makedirs_net p w : net (snd (makedirs p w)) = net w.
Proof.
  unfold makedirs. destruct (String.length p =? 0)%nat; [reflexivity|].
  destruct (fs w !! p) as [[|]|]; reflexivity.
Qed.

Lemma listdir_net dir w : net (snd (listdir dir w)) = net w.
Proof. unfold listdir. destruct (fs w !! dir) as [[|]|]; reflexivity. Qed.

Lemma os_rename_net src dst w : net (snd (os_rename src dst w)) = net w.
Proof.
  unfold os_rename. destruct (fs w !! src) as [[c|]|]; [| |reflexivity];
    destruct (fs w !! dst) as [[c'|]|]; try reflexivity;
    destruct (String.eqb src dst); reflexivity.
Qed.

Lemma rename_tif_net out_dir filename w :
  net (snd (rename_tif out_dir filename w)) = net w.
Proof.
  unfold rename_tif, bind, isfile.
  destruct (fs w !! os_path_join out_dir filename) as [[c|]|]; try reflexivity.
  destruct (splitext filename) as [oldbase ext].
  destruct (String.eqb (upper ext) ".TIF"); [apply os_rename_net | reflexivity].
Qed.

(** The copies the scan of an item appends, in the words of the claim:
    one per band name found in its display identifier, when its flag is
    true. *)
Definition copies (item : Item.t) : list Download.t :=
  if Item.bulkAvailable item
  then replicate
         (length (filter (fun b => occurs_in b (Item.displayId item)) bandNames))
         (candidate item)
  else [].

(** The candidates of a whole answer, repetitions included, in the order of
    its records and of their items. *)
Definition answer_candidates (options : list OptionRow.t) : list Download.t :=
  flat_map
    (fun row => flat_map copies (default [] (OptionRow.secondaryDownloads row)))
    options.

Lemma fold_left_appends {A B} (f : list A -> B -> list A) (g : B -> list A)
    (l : list B) :
  (forall acc y, f acc y = acc ++ g y) ->
  forall acc, fold_left f l acc = acc ++ flat_map g l.
Proof.
  intros Hf. induction l as [|y l IH]; intros acc; cbn [fold_left flat_map].
  - now rewrite app_nil_r.
  - now rewrite IH, Hf, <- app_assoc.
Qed.

Lemma scan_item_copies all_downloads item :
  scan_item all_downloads item = all_downloads ++ copies item.
Proof. unfold scan_item, copies. apply scan_bands_copies. Qed.

Lemma scan_option_candidates all_downloads row :
  scan_option all_downloads row =
  all_downloads ++ flat_map copies (default [] (OptionRow.secondaryDownloads row)).
Proof.
  unfold scan_option.
  destruct (OptionRow.secondaryDownloads row) as [[|i items]|];
    try (cbn; now rewrite app_nil_r).
  apply fold_left_appends. intros acc y. apply scan_item_copies.
Qed.

(** Scanning an answer appends its candidates, all of them, in order. *)
Lemma scan_options_candidates options all_downloads :
  scan_options options all_downloads = all_downloads ++ answer_candidates options.
Proof.
  unfold scan_options, answer_candidates.
  apply fold_left_appends. intros acc row. apply scan_option_candidates.
Qed.

Lemma flat_map_split {A B} (g : A -> list B) (l : list A) x :
  x ∈ l -> exists before after, flat_map g l = before ++ g x ++ after.
Proof.
  intros Hx. apply list_elem_of_split in Hx as (l1 & l2 & ->).
  exists (flat_map g l1), (flat_map g l2).
  now rewrite flat_map_app.
Qed.

Lemma submit_and_fetch_sends env args apiKey d all_downloads w :
  exists later,
    net (snd (submit_and_fetch env args apiKey (d :: all_downloads) w)) =
    net w ++
      Post (serviceUrl +:+ "download-request")
        (RequestPayload (d :: all_downloads) (now_label env))
        (request_headers (Some apiKey)) :: later.
Proof.
  unfold submit_and_fetch.
  match goal with
  | |- context [bind (sendRequest ?r ?u ?p ?k) ?f] =>
      assert (forall a, emits (fun _ => True) (f a)) as Hk;
      [|pose proof (sendRequest_net r u p k w) as Hnet;
        unfold bind at 1;
        destruct (sendRequest r u p k w) as [[a|e|c] w1]; simpl in Hnet;
        [destruct (Hk a w1) as (later & E & _); exists later;
         rewrite E, Hnet, <- app_assoc; reflexivity
        |exists []; exact Hnet | exists []; exact Hnet]]
  end.
  intros a.
  apply emits_bind; [apply emits_print | intros _].
  apply emits_bind; [apply emits_fs_only, makedirs_net | intros _].
  apply emits_bind.
  { apply emits_for_each. intros item. now apply downloadFile_emits. }
  intros _. apply emits_bind; [|intros _; apply emits_print].
  unfold rename_pass.
  apply emits_bind; [apply emits_fs_only, listdir_net | intros names].
  apply emits_for_each. intros name. apply emits_fs_only, rename_tif_net.
Qed.

(** C10.  An item whose flag is true is appended once per band name found
    in its display identifier, so twice or three times when two or three
    of them occur.  Scanning an answer appends the copies of all its
    items, none removed: the copies of each item stand side by side in
    what is appended.  The loop over the datasets only appends to the
    accumulator, and after a dataset whose two requests succeed the
    accumulator holds the candidates of its answer.  The request the
    script sends to [download-request] carries the accumulator the loop
    ended with, as it is, repetitions included. *)
Theorem duplicates_are_sent :
  (forall item all_downloads,
     Item.bulkAvailable item = true ->
     scan_item all_downloads item =
     all_downloads ++
       replicate
         (length (filter (fun b => occurs_in b (Item.displayId item))
                    ["QA_PIXEL"; "ST_B10"; "ST_B6"]))
         (candidate item)) /\
  (forall env args apiKey datasetNames all_downloads w acc' w',
     search_datasets env args apiKey datasetNames all_downloads w = (Returned acc', w') ->
     exists added, acc' = all_downloads ++ added) /\
  (forall env args apiKey d all_downloads w, exists later,
     net (snd (submit_and_fetch env args apiKey (d :: all_downloads) w)) =
     net w ++
       Post (serviceUrl +:+ "download-request")
         (RequestPayload (d :: all_downloads) (now_label env))
         (request_headers (Some apiKey)) :: later) /\
  (forall options all_downloads,
     scan_options options all_downloads =
     all_downloads ++ answer_candidates options) /\
  (forall options row items item,
     row ∈ options ->
     OptionRow.secondaryDownloads row = Some items ->
     item ∈ items ->
     Item.bulkAvailable item = true ->
     exists before after,
       answer_candidates options =
       before ++
         replicate
           (length (filter (fun b => occurs_in b (Item.displayId item))
                      ["QA_PIXEL"; "ST_B10"; "ST_B6"]))
           (candidate item) ++
         after) /\
  (forall env args apiKey datasetName rest all_downloads w sc results w1
          options w2 acc' w',
     sendRequest (search_reply env) (serviceUrl +:+ "scene-search")
       (search_payload args datasetName) (Some apiKey)
       (add_line (nl +:+ "Searching dataset: " +:+ datasetName) w)
     = (Returned (Some (sc :: results)), w1) ->
     sendRequest (options_reply env) (serviceUrl +:+ "download-options")
       (options_payload datasetName (map Scene.entityId (sc :: results)))
       (Some apiKey) w1
     = (Returned options, w2) ->
     search_datasets env args apiKey (datasetName :: rest) all_downloads w
     = (Returned acc', w') ->
     exists added, acc' = all_downloads ++ answer_candidates options ++ added) /\
  (forall env args w datasetNames apiKey w0 d all_downloads w1,
     get_valid_datasets (today env) (start_date args) (end_date args)
     = Ok datasetNames ->
     sendRequest (login_reply env) (serviceUrl +:+ "login-token")
       (LoginPayload (username args) (token args)) None
       (add_line ("Using datasets: " +:+ repr_list datasetNames) w)
     = (Returned apiKey, w0) ->
     search_datasets env args apiKey datasetNames [] w0
     = (Returned (d :: all_downloads), w1) ->
     exists later,
       net (snd (main env args w)) =
       net w1 ++
         Post (serviceUrl +:+ "download-request")
           (RequestPayload (d :: all_downloads) (now_label env))
           (request_headers (Some apiKey)) :: later).
Proof.
  split; [|split; [|split; [|split; [|split; [|split]]]]].
  - intros item acc Hbulk. unfold scan_item.
    rewrite scan_bands_copies, Hbulk. reflexivity.
  - intros. eapply search_datasets_grows; eassumption.
  - intros. apply submit_and_fetch_sends.
  - apply scan_options_candidates.
  - intros options row items item Hrow Hitems Hitem Hbulk.
    destruct (flat_map_split
                (fun row => flat_map copies (default [] (OptionRow.secondaryDownloads row)))
                options row Hrow) as (b1 & a1 & E1).
    cbn beta in E1. rewrite Hitems in E1. cbn [default from_option id] in E1.
    destruct (flat_map_split copies items item Hitem) as (b2 & a2 & E2).
    unfold copies at 2 in E2. rewrite Hbulk in E2.
    exists (b1 ++ b2), (a2 ++ a1).
    unfold answer_candidates. rewrite E1, E2.
    now rewrite <- !app_assoc.
  - intros env args apiKey d rest acc w sc results w1 options w2 acc' w'
           Hsearch Hoptions Hloop.
    unfold search_datasets in Hloop. cbn [for_acc] in Hloop.
    unfold bind at 1 in Hloop.
    assert (search_dataset env args apiKey d acc w
            = (Returned (scan_options options acc), w2)) as Hstep.
    { unfold search_dataset, bind at 1 2 3, print at 1. rewrite Hsearch.
      unfold bind at 1, try_except, bind at 1. now rewrite Hoptions. }
    rewrite Hstep in Hloop.
    apply (search_datasets_grows env args apiKey rest) in Hloop as [added ->].
    exists added. now rewrite scan_options_candidates, <- app_assoc.
  - intros env args w names apiKey w0 d acc w1 Hdates Hlogin Hloop.
    assert (main env args w = submit_and_fetch env args apiKey (d :: acc) w1) as ->.
    { unfold main, bind at 1, collect_downloads, bind at 1 2 3 4, print at 1.
      rewrite Hdates. cbn [lift ret]. rewrite Hlogin, Hloop. reflexivity. }
    apply submit_and_fetch_sends.
Qed.

Lemma duplicates_are_sent_witness :
  scan_item [] (Sample.item "LC08_ST_B10_ST_B6" true) =
    [] ++ replicate 2 (candidate (Sample.item "LC08_ST_B10_ST_B6" true)) /\
  (exists added,
     fst (Sample.found) = [] ++ added) /\
  (exists later,
     net (snd (main Sample.env Sample.args Sample.start)) =
     net (snd (collect_downloads Sample.env Sample.args Sample.start)) ++
       Post (serviceUrl +:+ "download-request")
         (RequestPayload
            [candidate (Sample.item "LC08_ST_B10_ST_B6" true);
             candidate (Sample.item "LC08_ST_B10_ST_B6" true);
             candidate (Sample.item "LC08_QA_PIXEL_TIF" true)]
            (now_label Sample.env))
         (request_headers (Some "KEY")) :: later).
Proof.
  split; [|split].
  - exact (proj1 duplicates_are_sent (Sample.item "LC08_ST_B10_ST_B6" true) [] eq_refl).
  - apply (proj1 (proj2 duplicates_are_sent) Sample.env Sample.args "KEY"
             ["landsat_ot_c2_l2"; "landsat_etm_c2_l2"] [] Sample.start
             (fst Sample.found) (snd Sample.found)).
    vm_compute. reflexivity.
  - apply (proj2 (proj2 (proj2 (proj2 (proj2 (proj2 duplicates_are_sent)))))
             Sample.env Sample.args Sample.start
             ["landsat_ot_c2_l2"; "landsat_etm_c2_l2"] "KEY"
             (Sample.logged_in Sample.env)).
    + vm_compute. reflexivity.
    + vm_compute. reflexivity.
    + vm_compute. reflexivity.
Defined.

(** ** Text: slices, [rfind] and [splitext] *)

Lemma str_app_cons a s t : String a s +:+ t = String a (s +:+ t).
Proof. reflexivity. Qed.

Lemma str_app_nil t : "" +:+ t = t.
Proof. reflexivity. Qed.

Lemma str_app_nil_r s : s +:+ "" = s.
Proof. induction s as [|a s IH]; [reflexivity | now rewrite str_app_cons, IH]. Qed.

Lemma str_take_drop n s : str_take n s +:+ str_drop n s = s.
Proof.
  revert s. induction n as [|n IH]; intros [|a s]; try reflexivity.
  change (String a (str_take n s +:+ str_drop n s) = String a s).
  now rewrite IH.
Qed.

Lemma str_take_app b x : str_take (String.length b) (b +:+ x) = b.
Proof.
  induction b as [|a b IH]; rewrite ?str_app_nil, ?str_app_cons;
    cbn [String.length str_take]; [now destruct x | now rewrite IH].
Qed.

Lemma str_drop_app b x : str_drop (String.length b) (b +:+ x) = x.
Proof.
  induction b as [|a b IH]; rewrite ?str_app_nil, ?str_app_cons;
    cbn [String.length str_drop]; [reflexivity | exact IH].
Qed.

Lemma str_take_length n s :
  (n <= String.length s)%nat -> String.length (str_take n s) = n.
Proof.
  revert s. induction n as [|n IH]; intros [|a s] H; simpl in *; try lia.
  rewrite IH; lia.
Qed.

Lemma str_length_app s t :
  String.length (s +:+ t) = (String.length s + String.length t)%nat.
Proof.
  induction s as [|a s IH]; rewrite ?str_app_nil, ?str_app_cons;
    cbn [String.length]; [reflexivity | now rewrite IH].
Qed.

Lemma str_app_inv_head s x y : s +:+ x = s +:+ y -> x = y.
Proof.
  induction s as [|a s IH]; rewrite ?str_app_nil, ?str_app_cons;
    [auto | intros H; injection H; auto].
Qed.

Lemma str_app_assoc s t u : (s +:+ t) +:+ u = s +:+ t +:+ u.
Proof.
  induction s as [|a s IH]; rewrite ?str_app_nil, ?str_app_cons;
    [reflexivity | now rewrite IH].
Qed.

Lemma rfind_bounds c s : -1 <= rfind c s < Z.of_nat (String.length s).
Proof.
  induction s as [|a s IH]; simpl; [lia|].
  destruct (0 <=? rfind c s) eqn:E; [lia|].
  destruct (Ascii.eqb a c); lia.
Qed.

Lemma rfind_app c s t :
  rfind c (s +:+ t) =
  if 0 <=? rfind c t then Z.of_nat (String.length s) + rfind c t else rfind c s.
Proof.
  pose proof (rfind_bounds c t) as Bt.
  induction s as [|a s IH]; rewrite ?str_app_nil, ?str_app_cons;
    cbn [rfind String.length].
  - destruct (0 <=? rfind c t) eqn:E; lia.
  - rewrite IH. destruct (0 <=? rfind c t) eqn:E.
    + destruct (0 <=? Z.of_nat (String.length s) + rfind c t) eqn:E2; lia.
    + reflexivity.
Qed.

Lemma get_app_l i b x :
  (i < String.length b)%nat -> String.get i (b +:+ x) = String.get i b.
Proof.
  revert i. induction b as [|a b IH]; intros i H; cbn [String.length] in H; [lia|].
  rewrite str_app_cons. destruct i; [reflexivity|].
  cbn [String.get]. apply IH. lia.
Qed.

Lemma non_dot_before_app n from b x y :
  (from + n <= String.length b)%nat ->
  non_dot_before n from (b +:+ x) = non_dot_before n from (b +:+ y).
Proof.
  revert from. induction n as [|n IH]; intros from H; simpl; [reflexivity|].
  rewrite !get_app_l by lia.
  destruct (String.get from b) as [a|]; [|reflexivity].
  destruct (Ascii.eqb a "."); [|reflexivity].
  apply IH. lia.
Qed.

Lemma non_dot_before_pos n from p : non_dot_before n from p = true -> (0 < n)%nat.
Proof. destruct n; simpl; [discriminate | lia]. Qed.

(** The parts [splitext] gives make up the name again. *)
Lemma splitext_app p b e : splitext p = (b, e) -> p = b +:+ e.
Proof.
  unfold splitext.
  destruct (_ && _); intros H; injection H as <- <-.
  - now rewrite str_take_drop.
  - now rewrite str_app_nil_r.
Qed.

(** When [splitext] finds an extension, the base is not empty, and the base
    followed by [.tif] splits into that base and [.tif]. *)
Lemma splitext_retarget p b e :
  splitext p = (b, e) -> e <> "" ->
  b <> "" /\ splitext (b +:+ ".tif") = (b, ".tif").
Proof.
  intros Hsplit He.
  pose proof (splitext_app _ _ _ Hsplit) as Hp.
  unfold splitext in Hsplit.
  set (sep := rfind "/" p) in *. set (dot := rfind "." p) in *.
  destruct ((sep <? dot) && _) eqn:C; [|injection Hsplit as _ <-; congruence].
  apply andb_true_iff in C as [C1 C2]. apply Z.ltb_lt in C1.
  pose proof (rfind_bounds "/" p) as Bs. fold sep in Bs.
  pose proof (rfind_bounds "." p) as Bd. fold dot in Bd.
  pose proof (non_dot_before_pos _ _ _ C2) as Hpos.
  injection Hsplit as Hb Hedrop.
  assert (String.length b = Z.to_nat dot) as Lb.
  { rewrite <- Hb. apply str_take_length. lia. }
  assert (rfind "/" b = sep) as Sb.
  { assert (sep = if 0 <=? rfind "/" e
                  then Z.of_nat (String.length b) + rfind "/" e
                  else rfind "/" b) as Hs.
    { unfold sep. rewrite Hp. apply rfind_app. }
    destruct (0 <=? rfind "/" e) eqn:E; lia. }
  split.
  - intros ->. simpl in Lb. lia.
  - unfold splitext.
    rewrite !rfind_app.
    change (rfind "." ".tif") with 0. change (rfind "/" ".tif") with (-1).
    change (0 <=? 0) with true. change (0 <=? -1) with false. cbv iota.
    rewrite Sb, Lb, Z.add_0_r.
    replace (Z.of_nat (Z.to_nat dot)) with dot by lia.
    assert ((sep <? dot) = true) as -> by now apply Z.ltb_lt.
    rewrite (non_dot_before_app _ _ b ".tif" e) by lia.
    rewrite <- Hp, C2. simpl andb. cbv iota.
    rewrite <- Lb, str_take_app, str_drop_app. reflexivity.
Qed.

Lemma upper_tif : upper ".tif" = ".TIF".
Proof. reflexivity. Qed.

Lemma os_path_join_relative a b :
  startswith "/" b = false -> os_path_join a b = join_prefix a +:+ b.
Proof.
  intros H. unfold os_path_join, join_prefix. rewrite H.
  destruct (_ || _); [reflexivity | now rewrite str_app_assoc].
Qed.

Lemma os_path_join_inj a x y :
  startswith "/" x = false -> startswith "/" y = false ->
  os_path_join a x = os_path_join a y -> x = y.
Proof.
  intros Hx Hy. rewrite !os_path_join_relative by assumption.
  apply str_app_inv_head.
Qed.

Lemma startswith_app c b x :
  b <> "" -> startswith c (b +:+ x) = startswith c b.
Proof. destruct b; [congruence | reflexivity]. Qed.

(** ** The rename pass *)

Section RenamePass.
Context (out_dir : string).

Local Abbreviation key := (os_path_join out_dir).

(** What one iteration does to the files. *)
Lemma rename_tif_cases filename w r w' :
  rename_tif out_dir filename w = (r, w') ->
  (fs w' = fs w /\
   (r = Returned tt -> tif_name filename ->
    forall c, fs w !! key filename <> Some (File c))) \/
  (exists c b e,
     splitext filename = (b, e) /\ upper e = ".TIF" /\
     fs w !! key filename = Some (File c) /\
     r = Returned tt /\
     fs w' = <[key (b +:+ ".tif") := File c]> (delete (key filename) (fs w))).
Proof.
  unfold rename_tif, bind, isfile, tif_name.
  destruct (fs w !! key filename) as [[c|]|] eqn:Hsrc;
    try (intros H; injection H as <- <-; left; split; [reflexivity | congruence]).
  destruct (splitext filename) as [b e] eqn:Hsplit. cbn [snd].
  destruct (String.eqb (upper e) ".TIF") eqn:Hext.
  - apply String.eqb_eq in Hext.
    unfold os_rename. rewrite Hsrc.
    destruct (fs w !! key (b +:+ ".tif")) as [[c'|]|] eqn:Hdst.
    + destruct (String.eqb_spec (key filename) (key (b +:+ ".tif"))) as [E|N];
        intros H; injection H as <- <-; right; exists c, b, e;
        repeat split; try assumption; try reflexivity.
      rewrite <- E, insert_delete_eq, insert_id; [reflexivity | exact Hsrc].
    + intros H; injection H as <- <-. left. split; [reflexivity | discriminate].
    + destruct (String.eqb_spec (key filename) (key (b +:+ ".tif"))) as [E|N];
        intros H; injection H as <- <-; right; exists c, b, e;
        repeat split; try assumption; try reflexivity.
      rewrite <- E, insert_delete_eq, insert_id; [reflexivity | exact Hsrc].
  - apply String.eqb_neq in Hext.
    intros H; injection H as <- <-. left. split; [reflexivity|].
    intros _ Htif. congruence.
Qed.

(** The target of a rename is again a name with the extension [.tif]. *)
Lemma target_tif filename b e :
  relative filename -> splitext filename = (b, e) -> upper e = ".TIF" ->
  relative (b +:+ ".tif") /\ splitext (b +:+ ".tif") = (b, ".tif").
Proof.
  intros Hrel Hsplit Hext.
  assert (e <> "") as He by (intros ->; discriminate).
  destruct (splitext_retarget _ _ _ Hsplit He) as [Hb Ht].
  split; [|exact Ht].
  unfold relative in *. rewrite startswith_app by exact Hb.
  rewrite (splitext_app _ _ _ Hsplit), startswith_app in Hrel by exact Hb.
  exact Hrel.
Qed.

(** One iteration leaves alone every file whose extension is not [.tif]
    in some letter case. *)
Lemma rename_tif_frame filename w name :
  relative filename -> relative name -> ~ tif_name name ->
  fs (snd (rename_tif out_dir filename w)) !! key name = fs w !! key name.
Proof.
  intros Hf Hn Hnot.
  destruct (rename_tif out_dir filename w) as [r w'] eqn:E. cbn [snd].
  apply rename_tif_cases in E as [[-> _]|(c & b & e & Hs & He & _ & _ & ->)];
    [reflexivity|].
  destruct (target_tif _ _ _ Hf Hs He) as [Hrel Ht].
  rewrite lookup_insert_ne, lookup_delete_ne; [reflexivity| |].
  - intros K. apply os_path_join_inj in K; [|assumption..].
    subst name. apply Hnot. unfold tif_name. now rewrite Hs.
  - intros K. apply os_path_join_inj in K; [|assumption..].
    subst name. apply Hnot. unfold tif_name. now rewrite Ht.
Qed.

Lemma rename_loop_frame names w name :
  Forall relative names -> relative name -> ~ tif_name name ->
  fs (snd (for_each (rename_tif out_dir) names w)) !! key name = fs w !! key name.
Proof.
  intros Hnames Hn Hnot. revert w. unfold for_each.
  induction Hnames as [|m names Hm _ IH]; intros w; [reflexivity|].
  cbn [for_acc]. unfold bind.
  pose proof (rename_tif_frame m w name Hm Hn Hnot) as Hstep.
  destruct (rename_tif out_dir m w) as [[[]|e|c] w1]; cbn [snd] in Hstep |- *;
    [rewrite IH|..]; exact Hstep.
Qed.

Section OneFile.
Context (n b e : string) (c : list ascii).
Context (Hrel : relative n) (Hsplit : splitext n = (b, e))
        (Hext : upper e = ".TIF").

Local Abbreviation moved_n := (moved out_dir n b c).
Local Abbreviation alone_n := (alone n b).

Lemma other_keys m bm em :
  relative m -> alone_n m -> m <> n ->
  splitext m = (bm, em) -> upper em = ".TIF" ->
  key m <> key n /\ key m <> key (b +:+ ".tif") /\
  key (bm +:+ ".tif") <> key n /\ key (bm +:+ ".tif") <> key (b +:+ ".tif").
Proof.
  intros Hm Halone Hne Hs He.
  assert (bm <> b) as Hb.
  { specialize (Halone Hne). unfold tif_name in Halone.
    rewrite Hs in Halone. now apply Halone. }
  destruct (target_tif _ _ _ Hrel Hsplit Hext) as [Rt St].
  destruct (target_tif _ _ _ Hm Hs He) as [Rm Sm].
  repeat split; intros K; apply os_path_join_inj in K; try assumption.
  - congruence.
  - subst m. rewrite St in Hs. congruence.
  - rewrite <- K, Sm in Hsplit. congruence.
  - rewrite K, St in Sm. congruence.
Qed.

Lemma rename_tif_moved m w w' :
  relative m -> alone_n m -> moved_n w ->
  rename_tif out_dir m w = (Returned tt, w') -> moved_n w'.
Proof.
  unfold moved. intros Hm Halone [Ht Hsrc] E.
  apply rename_tif_cases in E as [[-> _]|(cm & bm & em & Hs & He & Hf & _ & ->)];
    [now split|].
  destruct (decide (m = n)) as [->|Hne].
  - rewrite Hsplit in Hs. injection Hs as <- <-.
    destruct (decide (n = b +:+ ".tif")) as [Heq|Hneq].
    + rewrite <- Heq in Ht |- *. rewrite Hf in Ht. injection Ht as ->.
      split; [apply lookup_insert_eq | congruence].
    + rewrite Hsrc in Hf by exact Hneq. discriminate.
  - destruct (other_keys m bm em Hm Halone Hne Hs He) as (K1 & K2 & K3 & K4).
    split.
    + now rewrite lookup_insert_ne, lookup_delete_ne.
    + intros Hneq. rewrite lookup_insert_ne, lookup_delete_ne by assumption.
      now apply Hsrc.
Qed.

Lemma rename_loop_moved names w w' :
  Forall relative names -> Forall alone_n names -> moved_n w ->
  for_each (rename_tif out_dir) names w = (Returned tt, w') -> moved_n w'.
Proof.
  intros Hnames. revert w. unfold for_each.
  induction Hnames as [|m names Hm _ IH]; intros w Halone Hw; cbn [for_acc].
  - intros H. now injection H as <-.
  - inversion_clear Halone as [|? ? Ha Hrest]. unfold bind.
    destruct (rename_tif out_dir m w) as [[[]|?|?] w1] eqn:E; try discriminate.
    apply IH; [exact Hrest|]. eapply rename_tif_moved; eassumption.
Qed.

Lemma rename_tif_moves w w' :
  fs w !! key n = Some (File c) ->
  rename_tif out_dir n w = (Returned tt, w') -> moved_n w'.
Proof.
  unfold moved. intros Hf E.
  apply rename_tif_cases in E as [[_ H]|(c' & b' & e' & Hs & He & Hf' & _ & ->)].
  - exfalso. eapply (H eq_refl); [|exact Hf]. unfold tif_name. now rewrite Hsplit.
  - rewrite Hsplit in Hs. injection Hs as <- <-.
    rewrite Hf in Hf'. injection Hf' as <-.
    split; [apply lookup_insert_eq|].
    intros Hneq. rewrite lookup_insert_ne, lookup_delete_eq; [reflexivity|].
    intros K. destruct (target_tif _ _ _ Hrel Hsplit Hext) as [Rt _].
    apply os_path_join_inj in K; [congruence | assumption..].
Qed.

Lemma rename_tif_waits m w w' :
  relative m -> alone_n m -> m <> n ->
  fs w !! key n = Some (File c) ->
  rename_tif out_dir m w = (Returned tt, w') ->
  fs w' !! key n = Some (File c).
Proof.
  intros Hm Halone Hne Hf E.
  apply rename_tif_cases in E as [[-> _]|(cm & bm & em & Hs & He & _ & _ & ->)];
    [exact Hf|].
  destruct (other_keys m bm em Hm Halone Hne Hs He) as (K1 & K2 & K3 & K4).
  now rewrite lookup_insert_ne, lookup_delete_ne.
Qed.

Lemma rename_loop_moves names w w' :
  Forall relative names -> Forall alone_n names -> n ∈ names ->
  fs w !! key n = Some (File c) ->
  for_each (rename_tif out_dir) names w = (Returned tt, w') -> moved_n w'.
Proof.
  intros Hnames. revert w.
  induction Hnames as [|m names Hm Hnames IH]; intros w Halone Hin Hf.
  - now apply elem_of_nil in Hin.
  - inversion_clear Halone as [|? ? Ha Hrest].
    unfold for_each. cbn [for_acc]. unfold bind.
    destruct (rename_tif out_dir m w) as [[[]|?|?] w1] eqn:E; try discriminate.
    fold (for_each (rename_tif out_dir) names).
    destruct (decide (m = n)) as [->|Hne].
    + apply rename_loop_moved; try assumption.
      eapply rename_tif_moves; eassumption.
    + apply IH; try assumption.
      * apply elem_of_cons in Hin as [->|Hin]; [congruence | exact Hin].
      * eapply rename_tif_waits; eassumption.
Qed.

End OneFile.

End RenamePass.

(** The names [os.listdir] gives never start at the root. *)
Lemma entry_name_relative dir key name :
  entry_name dir key = Some name -> relative name.
Proof.
  unfold entry_name.
  destruct (_ && _) eqn:C; [|discriminate]. intros H. injection H as <-.
  apply andb_true_iff in C as [_ C]. apply negb_true_iff in C.
  unfold relative.
  destruct (str_drop _ key) as [|a s]; [reflexivity|].
  cbn [startswith]. destruct (Ascii.eqb_spec a "/") as [->|]; [|reflexivity].
  assert (contains "/" (String "/" s) = true) as K
    by (apply contains_occurs_in; now exists "", s).
  congruence.
Qed.

Lemma listdir_relative dir w names w' :
  listdir dir w = (Returned names, w') -> Forall relative names /\ w' = w.
Proof.
  unfold listdir. destruct (fs w !! dir) as [[|]|]; try discriminate.
  intros H. injection H as <- <-. split; [|reflexivity].
  apply Forall_forall. intros name Hin.
  apply list_elem_of_omap in Hin as (key & _ & Hkey).
  eapply entry_name_relative, Hkey.
Qed.

(** The pass as the script runs it leaves alone every file whose extension
    is not [.tif] in some letter case. *)
Lemma rename_pass_frame out_dir w name :
  relative name -> ~ tif_name name ->
  fs (snd (rename_pass out_dir w)) !! os_path_join out_dir name =
  fs w !! os_path_join out_dir name.
Proof.
  intros Hn Hnot. unfold rename_pass, bind.
  destruct (listdir out_dir w) as [[names|e|c] w1] eqn:E.
  - apply listdir_relative in E as [Hnames ->].
    now apply rename_loop_frame.
  - unfold listdir in E. destruct (fs w !! out_dir) as [[|]|];
      injection E as _ <-; reflexivity.
  - unfold listdir in E. destruct (fs w !! out_dir) as [[|]|]; discriminate.
Qed.

(** C5, as the specification words it, fails.  A file named [scene3.Tif],
    whose extension is not the upper-case [.TIF], is renamed all the same.
    The file [SCENE1.TIF] is not always mapped to [SCENE1.tif]: when a
    directory of that name is in the way the pass raises and the file
    stays.  And a file with another extension is not always left
    untouched: [SCENE1.tif] is overwritten by [SCENE1.TIF]. *)
Lemma rename_pass_renames_mixed_case :
  (snd (splitext "scene3.Tif") <> ".TIF" /\
   rename_pass "out"
     (World [] [] {[ "out" := Dir; "out/scene3.Tif" := File ["I"%char] ]}) =
   (Returned tt,
    World [] [] {[ "out" := Dir; "out/scene3.tif" := File ["I"%char] ]})) /\
  for_each (rename_tif "out") ["SCENE1.TIF"; "SCENE1.tif"]
    (World [] [] {[ "out" := Dir; "out/SCENE1.TIF" := File ["I"%char];
                    "out/SCENE1.tif" := Dir ]}) =
  (Raised (OSError "Is a directory"),
   World [] [] {[ "out" := Dir; "out/SCENE1.TIF" := File ["I"%char];
                  "out/SCENE1.tif" := Dir ]}) /\
  (snd (splitext "SCENE1.tif") <> ".TIF" /\
   for_each (rename_tif "out") ["SCENE1.TIF"; "SCENE1.tif"]
     (World [] [] {[ "out" := Dir; "out/SCENE1.TIF" := File ["I"%char];
                     "out/SCENE1.tif" := File ["M"%char] ]}) =
   (Returned tt,
    World [] [] {[ "out" := Dir; "out/SCENE1.tif" := File ["I"%char] ]})).
Proof.
  split; [split|split; [|split]].
  - vm_compute. discriminate.
  - vm_compute. reflexivity.
  - vm_compute. reflexivity.
  - vm_compute. discriminate.
  - vm_compute. reflexivity.
Qed.

(** C5, amended.  In a directory that holds [SCENE1.TIF], [scene2.tif]
    and [readme.TXT] the pass renames the first to [SCENE1.tif] and leaves
    the other two as they are.  In general, whatever the order of the
    listing: a file whose extension, upper-cased, is not [.TIF] is left
    untouched; and a file whose extension is [.TIF] in any letter case
    ([.TIF], [.Tif], [.tif]) ends under its base name followed by [.tif],
    with its content, when the pass completes and no other listed name is
    renamed to that same target. *)
Theorem rename_pass_ignores_case :
  (forall c1 c2 c3,
     rename_pass "out"
       (World [] []
          {[ "out" := Dir; "out/SCENE1.TIF" := File c1;
             "out/scene2.tif" := File c2; "out/readme.TXT" := File c3 ]}) =
     (Returned tt,
      World [] []
        {[ "out" := Dir; "out/SCENE1.tif" := File c1;
           "out/scene2.tif" := File c2; "out/readme.TXT" := File c3 ]})) /\
  (forall out_dir names w name,
     Forall relative names -> relative name -> ~ tif_name name ->
     fs (snd (for_each (rename_tif out_dir) names w)) !! os_path_join out_dir name =
     fs w !! os_path_join out_dir name) /\
  (forall out_dir names w w' n b e c,
     Forall relative names ->
     n ∈ names ->
     splitext n = (b, e) ->
     upper e = ".TIF" ->
     fs w !! os_path_join out_dir n = Some (File c) ->
     (forall m, m ∈ names -> m <> n -> tif_name m -> fst (splitext m) <> b) ->
     for_each (rename_tif out_dir) names w = (Returned tt, w') ->
     fs w' !! os_path_join out_dir (b +:+ ".tif") = Some (File c) /\
     (n <> b +:+ ".tif" -> fs w' !! os_path_join out_dir n = None)).
Proof.
  split; [|split].
  - intros c1 c2 c3. vm_compute. reflexivity.
  - intros. now apply rename_loop_frame.
  - intros out_dir names w w' n b e c Hnames Hin Hsplit Hext Hf Halone Hrun.
    assert (relative n) as Hrel by (eapply Forall_forall in Hnames; eassumption).
    eapply (rename_loop_moves out_dir n b e c Hrel Hsplit Hext names w w');
      try assumption.
    apply Forall_forall. intros m Hm. unfold alone. now apply Halone.
Qed.

Lemma rename_pass_ignores_case_witness :
  fs (snd (for_each (rename_tif "out") ["readme.TXT"; "scene3.Tif"]
             (World [] [] {[ "out" := Dir; "out/scene3.Tif" := File ["I"%char];
                             "out/readme.TXT" := File [] ]})))
    !! os_path_join "out" ("scene3" +:+ ".tif") = Some (File ["I"%char]) /\
  ("scene3.Tif" <> "scene3" +:+ ".tif" ->
   fs (snd (for_each (rename_tif "out") ["readme.TXT"; "scene3.Tif"]
              (World [] [] {[ "out" := Dir; "out/scene3.Tif" := File ["I"%char];
                              "out/readme.TXT" := File [] ]})))
     !! os_path_join "out" "scene3.Tif" = None).
Proof.
  apply (proj2 (proj2 rename_pass_ignores_case) "out"
           ["readme.TXT"; "scene3.Tif"]
           (World [] [] {[ "out" := Dir; "out/scene3.Tif" := File ["I"%char];
                           "out/readme.TXT" := File [] ]})
           _ "scene3.Tif" "scene3" ".Tif" ["I"%char]).
  - repeat constructor.
  - apply elem_of_cons. right. apply elem_of_cons. now left.
  - reflexivity.
  - reflexivity.
  - vm_compute. reflexivity.
  - intros m Hm Hne Htif.
    apply elem_of_cons in Hm as [->|Hm].
    + vm_compute in Htif. discriminate Htif.
    + apply list_elem_of_singleton in Hm. congruence.
  - vm_compute. reflexivity.
Defined.

(** * Further properties *)

(** ** Dataset selection: when nothing is selected *)

Lemma empty_list_iff {A} (l : list A) : l = [] <-> forall x, ~ x ∈ l.
Proof.
  split.
  - intros -> x H. now apply elem_of_nil in H.
  - destruct l as [|a l]; [reflexivity|].
    intros H. exfalso. apply (H a). apply elem_of_cons. now left.
Qed.

(** The call returns the empty list exactly when the window is inverted, or
    ends before the first TM day, or starts after both the last ETM+ day
    and today. *)
Theorem get_valid_datasets_empty_iff today s e d1 d2 :
  Strptime.strptime s = Ok d1 ->
  Strptime.strptime e = Ok d2 ->
  (get_valid_datasets today s e = Ok [] <->
   ~ Date.le d1 d2 \/
   ~ Date.le (Date.Build 1982 7 16) d2 \/
   (~ Date.le d1 (Date.Build 2022 4 6) /\ ~ Date.le d1 today)).
Proof.
  intros Hs He.
  destruct (get_valid_datasets_parsed today s e d1 d2 Hs He) as (l & Hl & _ & Hin).
  rewrite Hl.
  assert (Ok l = Ok [] <-> l = []) as -> by (split; [now intros [= ->] | now intros ->]).
  rewrite empty_list_iff.
  assert ((forall x, ~ x ∈ l) <->
          overlaps d1 d2 tm_start tm_end <> true /\
          overlaps d1 d2 etm_start etm_end <> true /\
          overlaps d1 d2 ot_start today <> true) as ->.
  { split.
    - intros H. repeat split; intros O.
      + apply (H landsat_tm), Hin. auto.
      + apply (H landsat_etm), Hin. auto.
      + apply (H landsat_ot), Hin. auto.
    - intros (H1 & H2 & H3) x Hx. apply Hin in Hx. tauto. }
  rewrite !overlaps_le.
  destruct d1 as [y1 m1 a1], d2 as [y2 m2 a2], today as [yt mt at_].
  unfold Date.le, tm_start, tm_end, etm_start, etm_end, ot_start; cbn [Date.year Date.month Date.day].
  lia.
Qed.

Lemma get_valid_datasets_empty_iff_witness :
  get_valid_datasets (Date.Build 2026 11 4) "1975-01-01" "1980-12-31" = Ok [] <->
  ~ Date.le (Date.Build 1975 1 1) (Date.Build 1980 12 31) \/
  ~ Date.le (Date.Build 1982 7 16) (Date.Build 1980 12 31) \/
  (~ Date.le (Date.Build 1975 1 1) (Date.Build 2022 4 6) /\
   ~ Date.le (Date.Build 1975 1 1) (Date.Build 2026 11 4)).
Proof.
  apply (get_valid_datasets_empty_iff (Date.Build 2026 11 4)
           "1975-01-01" "1980-12-31"); reflexivity.
Defined.

(** ** Malformed dates *)

(** A date that [strptime] rejects makes the call raise its [ValueError],
    the start date being read first; and the script then stops before it
    prints or requests anything. *)
Theorem invalid_date_raises_first env args e :
  (Strptime.strptime (start_date args) = Err e \/
   (exists d, Strptime.strptime (start_date args) = Ok d) /\
   Strptime.strptime (end_date args) = Err e) ->
  get_valid_datasets (today env) (start_date args) (end_date args) = Err e /\
  forall w, main env args w = (Raised e, w).
Proof.
  intros H.
  assert (get_valid_datasets (today env) (start_date args) (end_date args) = Err e) as G.
  { unfold get_valid_datasets.
    destruct H as [-> | [[d ->] ->]]; reflexivity. }
  split; [exact G|].
  intros w. unfold main, collect_downloads, bind at 1 2. now rewrite G.
Qed.

Lemma invalid_date_raises_first_witness :
  get_valid_datasets (today Sample.env) "2012-02-30" "2014-01-01" =
    Err (ValueError "day is out of range for month") /\
  forall w,
    main Sample.env
      {| username := "user"; token := "secret";
         bbox := (11.25%float, 44.25%float, 11.5%float, 44.75%float);
         start_date := "2012-02-30"; end_date := "2014-01-01";
         city := "Bologna"; out_dir := "out" |} w =
    (Raised (ValueError "day is out of range for month"), w).
Proof.
  apply (invalid_date_raises_first Sample.env
           {| username := "user"; token := "secret";
              bbox := (11.25%float, 44.25%float, 11.5%float, 44.75%float);
              start_date := "2012-02-30"; end_date := "2014-01-01";
              city := "Bologna"; out_dir := "out" |}).
  left. reflexivity.
Defined.

(** ** [sendRequest]: what is sent and what comes back *)

(** Every call sends exactly one request, whatever the answer, and touches
    neither the printed lines nor the files; it returns [d] exactly when the
    status is outside 400..599 and the body is JSON with [d] under [data];
    it never exits; and the token header is there exactly when an API key
    that is not empty is given. *)
Theorem sendRequest_contract {A} (reply : list event -> http_reply A)
    url data apiKey w :
  snd (sendRequest reply url data apiKey w) =
    log_event (Post url data (request_headers apiKey)) w /\
  (forall d,
     fst (sendRequest reply url data apiKey w) = Returned d <->
     exists st,
       reply (net w ++ [Post url data (request_headers apiKey)]) =
         Response st (Some (Some d)) /\
       (st < 400 \/ 600 <= st)) /\
  (forall c, fst (sendRequest reply url data apiKey w) <> Exited c) /\
  (forall k, ("X-Auth-Token", k) ∈ request_headers apiKey <->
             apiKey = Some k /\ k <> "").
Proof.
  split; [|split; [|split]].
  - unfold sendRequest.
    destruct (reply _) as [e|st [[d|]|]]; try reflexivity;
      destruct ((400 <=? st) && (st <? 600)); reflexivity.
  - intros d. unfold sendRequest. cbn [net log_event]. split.
    + destruct (reply _) as [e|st [[d'|]|]]; [discriminate| | |];
        (destruct ((400 <=? st) && (st <? 600)) eqn:C; [discriminate|]);
        try discriminate.
      cbn [fst]. intros E. injection E as ->. exists st. split; [reflexivity|].
      apply andb_false_iff in C as [C|C];
        [apply Z.leb_gt in C | apply Z.ltb_ge in C]; lia.
    + intros (st & Hr & Hst). rewrite Hr.
      assert ((400 <=? st) && (st <? 600) = false) as ->; [|reflexivity].
      apply andb_false_iff.
      destruct Hst; [left; apply Z.leb_gt | right; apply Z.ltb_ge]; lia.
  - intros c. unfold sendRequest.
    destruct (reply _) as [e|st [[d|]|]]; try discriminate;
      destruct ((400 <=? st) && (st <? 600)); discriminate.
  - intros k. unfold request_headers. destruct apiKey as [k'|].
    + destruct (String.length k' =? 0)%nat eqn:L.
      * split.
        -- intros H. apply list_elem_of_singleton in H. discriminate H.
        -- intros [E Hk]. injection E as ->.
           destruct k; [congruence | discriminate L].
      * split.
        -- intros H. apply elem_of_app in H as [H|H];
             apply list_elem_of_singleton in H; [discriminate H|].
           injection H as ->. split; [reflexivity|].
           intros ->. discriminate L.
        -- intros [E _]. injection E as ->.
           apply elem_of_app. right. now apply list_elem_of_singleton.
    + split.
      * intros H. apply list_elem_of_singleton in H. discriminate H.
      * intros [E _]. discriminate E.
Qed.

(** ** The loop over the datasets: skipped datasets and fatal errors *)

(** A dataset whose search answers with no [results], or with an empty
    list, is reported and skipped: the loop goes on with the next dataset
    without asking for download options. *)
Theorem no_scenes_skips_dataset
    env args apiKey datasetName rest all_downloads w scenes w1 :
  sendRequest (search_reply env) (serviceUrl +:+ "scene-search")
    (search_payload args datasetName) (Some apiKey)
    (add_line (nl +:+ "Searching dataset: " +:+ datasetName) w)
  = (Returned scenes, w1) ->
  scenes = None \/ scenes = Some [] ->
  search_datasets env args apiKey (datasetName :: rest) all_downloads w =
  search_datasets env args apiKey rest all_downloads
    (add_line ("No scenes found in " +:+ datasetName) w1).
Proof.
  intros Hsearch Hnone.
  unfold search_datasets. simpl for_acc.
  unfold search_dataset, bind at 1 2 3, print at 1.
  rewrite Hsearch. destruct Hnone as [-> | ->]; reflexivity.
Qed.

Lemma no_scenes_skips_dataset_witness :
  search_datasets Sample.env_no_scene Sample.args "KEY"
    ["landsat_ot_c2_l2"; "landsat_etm_c2_l2"] [] Sample.start =
  search_datasets Sample.env_no_scene Sample.args "KEY" ["landsat_etm_c2_l2"] []
    (add_line ("No scenes found in " +:+ "landsat_ot_c2_l2")
       (snd (sendRequest (search_reply Sample.env_no_scene)
               (serviceUrl +:+ "scene-search")
               (search_payload Sample.args "landsat_ot_c2_l2") (Some "KEY")
               (add_line (nl +:+ "Searching dataset: " +:+ "landsat_ot_c2_l2")
                  Sample.start)))).
Proof.
  apply (no_scenes_skips_dataset Sample.env_no_scene Sample.args "KEY"
           "landsat_ot_c2_l2" ["landsat_etm_c2_l2"] [] Sample.start (Some [])).
  - vm_compute. reflexivity.
  - right. reflexivity.
Defined.

Lemma sendRequest_world {A} (reply : list event -> http_reply A)
    url data apiKey w :
  snd (sendRequest reply url data apiKey w) =
  log_event (Post url data (request_headers apiKey)) w.
Proof.
  unfold sendRequest.
  destruct (reply _) as [e|st [[d|]|]]; try reflexivity;
    destruct ((400 <=? st) && (st <? 600)); reflexivity.
Qed.

Lemma for_acc_app {A S} (body : A -> S -> M S) (l1 l2 : list A) (s : S) w :
  for_acc body (l1 ++ l2) s w = bind (for_acc body l1 s) (for_acc body l2) w.
Proof.
  revert s w. induction l1 as [|x l1 IH]; intros s w.
  - reflexivity.
  - cbn [app for_acc]. unfold bind in *.
    destruct (body x s w) as [[s1|e|c] w1]; [apply IH | reflexivity..].
Qed.

(** A scene search that raises is not caught.  When the datasets before
    [datasetName] have been dealt with and the search of [datasetName]
    raises, the loop stops there and the script ends with that exception,
    in the state the failed request left: the remaining datasets are not
    searched and nothing else is requested, printed or written. *)
Theorem search_failure_aborts
    env args w datasetNames apiKey w0 done datasetName rest all_downloads w1 e w2 :
  get_valid_datasets (today env) (start_date args) (end_date args)
  = Ok datasetNames ->
  datasetNames = done ++ datasetName :: rest ->
  sendRequest (login_reply env) (serviceUrl +:+ "login-token")
    (LoginPayload (username args) (token args)) None
    (add_line ("Using datasets: " +:+ repr_list datasetNames) w)
  = (Returned apiKey, w0) ->
  search_datasets env args apiKey done [] w0 = (Returned all_downloads, w1) ->
  sendRequest (search_reply env) (serviceUrl +:+ "scene-search")
    (search_payload args datasetName) (Some apiKey)
    (add_line (nl +:+ "Searching dataset: " +:+ datasetName) w1)
  = (Raised e, w2) ->
  main env args w = (Raised e, w2) /\
  search_datasets env args apiKey datasetNames [] w0 = (Raised e, w2) /\
  net w2 = net w1 ++ [Post (serviceUrl +:+ "scene-search")
                        (search_payload args datasetName)
                        (request_headers (Some apiKey))] /\
  fs w2 = fs w1.
Proof.
  intros Hdates Hnames Hlogin Hdone Hsearch.
  assert (search_datasets env args apiKey datasetNames [] w0 = (Raised e, w2)) as Hloop.
  { rewrite Hnames. unfold search_datasets in *. rewrite for_acc_app.
    unfold bind at 1. rewrite Hdone. cbn [for_acc]. unfold bind at 1.
    unfold search_dataset, bind at 1 2, print at 1.
    now rewrite Hsearch. }
  pose proof (sendRequest_world (search_reply env) (serviceUrl +:+ "scene-search")
                (search_payload args datasetName) (Some apiKey)
                (add_line (nl +:+ "Searching dataset: " +:+ datasetName) w1)) as N.
  rewrite Hsearch in N. cbn [snd] in N.
  split; [|split; [exact Hloop|split]].
  - unfold main, bind at 1, collect_downloads, bind at 1 2 3 4, print at 1.
    rewrite Hdates. cbn [lift ret]. now rewrite Hlogin, Hloop.
  - now rewrite N.
  - now rewrite N.
Qed.

Lemma search_failure_aborts_witness :
  main Sample.env_search_down Sample.args Sample.start =
    (Raised (RequestException "timed out"),
     snd (collect_downloads Sample.env_search_down Sample.args Sample.start)) /\
  search_datasets Sample.env_search_down Sample.args "KEY"
    ["landsat_ot_c2_l2"; "landsat_etm_c2_l2"] []
    (Sample.logged_in Sample.env_search_down) =
    (Raised (RequestException "timed out"),
     snd (collect_downloads Sample.env_search_down Sample.args Sample.start)) /\
  net (snd (collect_downloads Sample.env_search_down Sample.args Sample.start)) =
    net (Sample.logged_in Sample.env_search_down) ++
      [Post (serviceUrl +:+ "scene-search")
         (search_payload Sample.args "landsat_ot_c2_l2")
         (request_headers (Some "KEY"))] /\
  fs (snd (collect_downloads Sample.env_search_down Sample.args Sample.start)) =
    fs (Sample.logged_in Sample.env_search_down).
Proof.
  apply (search_failure_aborts Sample.env_search_down Sample.args Sample.start
           ["landsat_ot_c2_l2"; "landsat_etm_c2_l2"] "KEY"
           (Sample.logged_in Sample.env_search_down)
           [] "landsat_ot_c2_l2" ["landsat_etm_c2_l2"] []
           (Sample.logged_in Sample.env_search_down)).
  - vm_compute. reflexivity.
  - reflexivity.
  - vm_compute. reflexivity.
  - reflexivity.
  - vm_compute. reflexivity.
Defined.

(** A login that raises ends the script with that exception after one
    request, the login itself: no dataset is searched and no file is
    touched. *)
Theorem login_failure_aborts env args datasetNames w e w1 :
  get_valid_datasets (today env) (start_date args) (end_date args) = Ok datasetNames ->
  sendRequest (login_reply env) (serviceUrl +:+ "login-token")
    (LoginPayload (username args) (token args)) None
    (add_line ("Using datasets: " +:+ repr_list datasetNames) w)
  = (Raised e, w1) ->
  main env args w = (Raised e, w1) /\
  net w1 = net w ++ [Post (serviceUrl +:+ "login-token")
                       (LoginPayload (username args) (token args))
                       [("Content-Type", "application/json")]] /\
  fs w1 = fs w.
Proof.
  intros Hdates Hlogin.
  split; [|split].
  - unfold main, bind at 1, collect_downloads, bind at 1 2 3, print at 1.
    rewrite Hdates. cbn [lift ret]. now rewrite Hlogin.
  - pose proof (sendRequest_net (login_reply env) (serviceUrl +:+ "login-token")
                  (LoginPayload (username args) (token args)) None
                  (add_line ("Using datasets: " +:+ repr_list datasetNames) w)) as N.
    rewrite Hlogin in N. exact N.
  - pose proof (sendRequest_world (login_reply env)
                  (serviceUrl +:+ "login-token")
                  (LoginPayload (username args) (token args)) None
                  (add_line ("Using datasets: " +:+ repr_list datasetNames) w)) as N.
    rewrite Hlogin in N. cbn [snd] in N. now rewrite N.
Qed.

Lemma login_failure_aborts_witness :
  main Sample.env_login_refused Sample.args Sample.start =
    (Raised (HTTPError "401"), Sample.logged_in Sample.env_login_refused) /\
  net (Sample.logged_in Sample.env_login_refused) =
    net Sample.start ++
      [Post (serviceUrl +:+ "login-token")
         (LoginPayload (username Sample.args) (token Sample.args))
         [("Content-Type", "application/json")]] /\
  fs (Sample.logged_in Sample.env_login_refused) = fs Sample.start.
Proof.
  apply (login_failure_aborts Sample.env_login_refused Sample.args
           ["landsat_ot_c2_l2"; "landsat_etm_c2_l2"] Sample.start).
  - vm_compute. reflexivity.
  - vm_compute. reflexivity.
Defined.

(** A download request that raises ends the script with that exception.
    When the loop over the datasets has ended with candidates and the
    request to [download-request] raises, the script ends with the
    exception in the state the failed request left: nothing is printed,
    the output directory is not created, nothing is downloaded, and that
    request is the only one made since the loop. *)
Theorem download_request_failure_aborts env args w apiKey d all_downloads w1 e w2 :
  collect_downloads env args w = (Returned (apiKey, d :: all_downloads), w1) ->
  sendRequest (request_reply env) (serviceUrl +:+ "download-request")
    (RequestPayload (d :: all_downloads) (now_label env)) (Some apiKey) w1
  = (Raised e, w2) ->
  main env args w = (Raised e, w2) /\
  submit_and_fetch env args apiKey (d :: all_downloads) w1 = (Raised e, w2) /\
  fs w2 = fs w1 /\
  stdout w2 = stdout w1 /\
  net w2 = net w1 ++
    [Post (serviceUrl +:+ "download-request")
       (RequestPayload (d :: all_downloads) (now_label env))
       (request_headers (Some apiKey))].
Proof.
  intros Hcollect H.
  pose proof (sendRequest_world (request_reply env)
                (serviceUrl +:+ "download-request")
                (RequestPayload (d :: all_downloads) (now_label env))
                (Some apiKey) w1) as N.
  rewrite H in N. cbn [snd] in N.
  assert (submit_and_fetch env args apiKey (d :: all_downloads) w1 = (Raised e, w2)) as Hs.
  { unfold submit_and_fetch, bind at 1. now rewrite H. }
  split; [|split; [exact Hs|]].
  - unfold main, bind at 1. rewrite Hcollect. exact Hs.
  - subst w2. repeat split.
Qed.

Lemma download_request_failure_aborts_witness :
  main Sample.env_request_down Sample.args Sample.start =
    (Raised (HTTPError "503"),
     log_event
       (Post (serviceUrl +:+ "download-request")
          (RequestPayload
             [candidate (Sample.item "LC08_ST_B10_ST_B6" true);
              candidate (Sample.item "LC08_ST_B10_ST_B6" true);
              candidate (Sample.item "LC08_QA_PIXEL_TIF" true)]
             (now_label Sample.env_request_down))
          (request_headers (Some "KEY")))
       (snd (collect_downloads Sample.env_request_down Sample.args Sample.start))).
Proof.
  apply (download_request_failure_aborts Sample.env_request_down Sample.args
           Sample.start "KEY"
           (candidate (Sample.item "LC08_ST_B10_ST_B6" true))
           [candidate (Sample.item "LC08_ST_B10_ST_B6" true);
            candidate (Sample.item "LC08_QA_PIXEL_TIF" true)]
           (snd (collect_downloads Sample.env_request_down Sample.args Sample.start))).
  - vm_compute. reflexivity.
  - vm_compute. reflexivity.
Defined.

(** ** One search per dataset *)

Lemma search_dataset_searches env args apiKey datasetName all_downloads w acc' w' :
  search_dataset env args apiKey datasetName all_downloads w = (Returned acc', w') ->
  exists evs,
    net w' = net w ++ evs /\ omap searched evs = [datasetName] /\
    (length evs <= 2)%nat.
Proof.
  unfold search_dataset, bind at 1 2, print at 1.
  match goal with
  | |- context [sendRequest ?r ?u ?p ?k ?w0] =>
      pose proof (sendRequest_world r u p k w0) as N1;
      destruct (sendRequest r u p k w0) as [[scenes|e|c] w1]; try discriminate
  end.
  cbn [snd] in N1.
  assert (searched (Post (serviceUrl +:+ "scene-search")
                      (search_payload args datasetName)
                      (request_headers (Some apiKey))) = Some datasetName) as S1.
  { unfold search_payload. destruct (bbox args) as [[[? ?] ?] ?]. reflexivity. }
  destruct scenes as [[|sc results]|].
  - intros H. injection H as _ <-. subst w1. eexists. split; [reflexivity|].
    cbn [omap list_omap]. rewrite S1. split; [reflexivity | cbn; lia].
  - unfold bind at 1, try_except, bind at 1.
    match goal with
    | |- context [sendRequest ?r ?u ?p ?k w1] =>
        pose proof (sendRequest_world r u p k w1) as N2;
        destruct (sendRequest r u p k w1) as [[o|e|c] w2]; try discriminate
    end;
      cbn [snd] in N2; intros H; injection H as _ <-; subst w2 w1;
      (eexists; split; [cbn [net log_event add_line]; rewrite <- app_assoc; reflexivity|]);
      cbn [omap list_omap app]; rewrite S1; (split; [reflexivity | cbn; lia]).
  - intros H. injection H as _ <-. subst w1. eexists. split; [reflexivity|].
    cbn [omap list_omap]. rewrite S1. split; [reflexivity | cbn; lia].
Qed.

(** When the loop over the datasets completes, it has searched each dataset
    once, in the order of the list, and made at most two requests per
    dataset. *)
Theorem search_datasets_searches_each_once
    env args apiKey datasetNames all_downloads w acc' w' :
  search_datasets env args apiKey datasetNames all_downloads w = (Returned acc', w') ->
  exists evs,
    net w' = net w ++ evs /\
    omap searched evs = datasetNames /\
    (length evs <= 2 * length datasetNames)%nat.
Proof.
  unfold search_datasets.
  revert all_downloads w.
  induction datasetNames as [|d ds IH]; intros acc w; cbn [for_acc].
  - intros H. injection H as _ <-. exists []. rewrite app_nil_r. repeat split. cbn; lia.
  - unfold bind.
    destruct (search_dataset env args apiKey d acc w) as [[acc1|e|c] w1] eqn:E;
      try discriminate.
    intros H. apply IH in H as (evs2 & N2 & S2 & L2).
    apply search_dataset_searches in E as (evs1 & N1 & S1 & L1).
    exists (evs1 ++ evs2). rewrite N2, N1, app_assoc.
    split; [reflexivity|]. split.
    + rewrite omap_app, S1, S2. reflexivity.
    + rewrite length_app. cbn [length]. lia.
Qed.

Lemma search_datasets_searches_each_once_witness :
  exists evs,
    net (snd Sample.found) = net Sample.start ++ evs /\
    omap searched evs = ["landsat_ot_c2_l2"; "landsat_etm_c2_l2"] /\
    (length evs <= 2 * length ["landsat_ot_c2_l2"; "landsat_etm_c2_l2"])%nat.
Proof.
  apply (search_datasets_searches_each_once Sample.env Sample.args "KEY"
           ["landsat_ot_c2_l2"; "landsat_etm_c2_l2"] [] Sample.start
           (fst Sample.found) (snd Sample.found)).
  vm_compute. reflexivity.
Defined.

(** ** The candidates of a whole answer *)

Lemma fold_left_membership {A B} (f : list A -> B -> list A) (Q : B -> A -> Prop)
    (l : list B) :
  (forall acc y x, x ∈ f acc y <-> x ∈ acc \/ Q y x) ->
  forall acc x, x ∈ fold_left f l acc <-> x ∈ acc \/ exists y, y ∈ l /\ Q y x.
Proof.
  intros Hf. induction l as [|y l IH]; intros acc x; cbn [fold_left].
  - split; [auto|]. intros [H|(y & Hy & _)]; [exact H|].
    now apply elem_of_nil in Hy.
  - rewrite IH, Hf. split.
    + intros [[H|H]|(z & Hz & HQ)]; [auto| |].
      * right. exists y. split; [apply elem_of_cons; now left | exact H].
      * right. exists z. split; [apply elem_of_cons; now right | exact HQ].
    + intros [H|(z & Hz & HQ)]; [auto|].
      apply elem_of_cons in Hz as [->|Hz]; [auto|].
      right. exists z. auto.
Qed.

(** The item qualifies: its flag is true and its display identifier
    contains a band name. *)
Lemma scan_item_membership all_downloads item x :
  x ∈ scan_item all_downloads item <->
  x ∈ all_downloads \/
  (Item.bulkAvailable item = true /\
   (exists b, b ∈ bandNames /\ occurs_in b (Item.displayId item)) /\
   x = candidate item).
Proof.
  unfold scan_item. rewrite scan_bands_copies, elem_of_app.
  destruct (Item.bulkAvailable item).
  - rewrite elem_of_replicate. split.
    + intros [H|[-> Hk]]; [auto|]. right. repeat split.
      destruct (filter _ bandNames) as [|b l] eqn:F; [now elim Hk|].
      assert (b ∈ filter (fun b => occurs_in b (Item.displayId item)) bandNames) as Hb
        by (rewrite F; apply elem_of_cons; now left).
      apply list_elem_of_filter in Hb as [Hocc Hin]. eauto.
    + intros [H|(_ & (b & Hin & Hocc) & ->)]; [auto|]. right. split; [reflexivity|].
      assert (b ∈ filter (fun b => occurs_in b (Item.displayId item)) bandNames) as Hb
        by now apply list_elem_of_filter.
      destruct (filter _ bandNames); [now apply elem_of_nil in Hb | discriminate].
  - split; [intros [H|H]; [auto | now apply elem_of_nil in H]|].
    intros [H|(H & _)]; [auto | discriminate].
Qed.

(** A candidate is in the accumulator after an answer has been scanned
    exactly when it was there before, or it is the candidate of an item of
    some record of the answer, whose flag is true and whose display
    identifier contains one of the band names. *)
Theorem scan_options_membership options all_downloads x :
  x ∈ scan_options options all_downloads <->
  x ∈ all_downloads \/
  exists row items item,
    row ∈ options /\
    OptionRow.secondaryDownloads row = Some items /\
    item ∈ items /\
    Item.bulkAvailable item = true /\
    (exists b, b ∈ bandNames /\ occurs_in b (Item.displayId item)) /\
    x = candidate item.
Proof.
  unfold scan_options.
  rewrite (fold_left_membership scan_option
             (fun row x => exists items item,
                  OptionRow.secondaryDownloads row = Some items /\
                  item ∈ items /\
                  Item.bulkAvailable item = true /\
                  (exists b, b ∈ bandNames /\ occurs_in b (Item.displayId item)) /\
                  x = candidate item)).
  - split; (intros [H|H]; [now left | right]).
    + destruct H as (row & Hrow & items & item & H). exists row, items, item. tauto.
    + destruct H as (row & items & item & Hrow & H). exists row. split; [exact Hrow|].
      exists items, item. exact H.
  - intros acc row y. unfold scan_option.
    destruct (OptionRow.secondaryDownloads row) as [[|i items]|].
    + split; [auto|]. intros [H|(items & item & E & Hin & _)]; [exact H|].
      injection E as <-. now apply elem_of_nil in Hin.
    + rewrite (fold_left_membership scan_item
                 (fun item x =>
                    Item.bulkAvailable item = true /\
                    (exists b, b ∈ bandNames /\ occurs_in b (Item.displayId item)) /\
                    x = candidate item)).
      * split; (intros [H|H]; [now left | right]).
        -- destruct H as (item & Hin & H). exists (i :: items), item. tauto.
        -- destruct H as (items' & item & E & Hin & H). injection E as <-.
           exists item. tauto.
      * intros acc' item z. apply scan_item_membership.
    + split; [auto|]. intros [H|(items & item & E & _)]; [exact H | discriminate].
Qed.

(** ** The file name taken from the header *)

Lemma lstrip_startswith c s : startswith c (lstrip c s) = false.
Proof.
  induction s as [|a s IH]; [reflexivity|].
  cbn [lstrip]. destruct (Ascii.eqb a c) eqn:E; [exact IH|].
  cbn [startswith]. exact E.
Qed.

Lemma lstrip_id c s : startswith c s = false -> lstrip c s = s.
Proof. destruct s as [|a s]; [reflexivity|]. cbn. now intros ->. Qed.

Lemma rstrip_endswith c s : endswith c (rstrip c s) = false.
Proof.
  induction s as [|a s IH]; [reflexivity|].
  cbn [rstrip]. destruct (rstrip c s) as [|b r].
  - destruct (Ascii.eqb a c) eqn:E; [reflexivity|]. cbn [endswith]. exact E.
  - exact IH.
Qed.

Lemma rstrip_id c s : endswith c s = false -> rstrip c s = s.
Proof.
  induction s as [|a s IH]; [reflexivity|].
  destruct s as [|b s].
  - cbn. now intros ->.
  - intros H. change (endswith c (String a (String b s)))
      with (endswith c (String b s)) in H.
    specialize (IH H). remember (String b s) as t eqn:Ht.
    cbn [rstrip]. rewrite IH, Ht. reflexivity.
Qed.

Lemma rstrip_startswith c s : startswith c s = false -> startswith c (rstrip c s) = false.
Proof.
  destruct s as [|a s]; [reflexivity|].
  cbn [startswith rstrip]. intros E.
  destruct (rstrip c s); [rewrite E|]; cbn [startswith]; exact E.
Qed.

Lemma rstrip_snoc c s : rstrip c (s +:+ String c "") = rstrip c s.
Proof.
  induction s as [|a s IH].
  - rewrite str_app_nil. cbn [rstrip]. now rewrite Ascii.eqb_refl.
  - rewrite str_app_cons. cbn [rstrip]. now rewrite IH.
Qed.

(** [strip]: the result neither starts nor ends with the character; a text
    that neither starts nor ends with it is kept as it is, also when it
    comes between two of them; stripping twice is stripping once. *)
Theorem strip_quotes c s :
  startswith c (strip c s) = false /\
  endswith c (strip c s) = false /\
  strip c (strip c s) = strip c s /\
  (startswith c s = false -> endswith c s = false ->
   strip c s = s /\ strip c (String c (s +:+ String c "")) = s).
Proof.
  assert (forall t, startswith c t = false -> endswith c t = false -> strip c t = t) as Hid.
  { intros t H1 H2. unfold strip. now rewrite lstrip_id, rstrip_id. }
  assert (startswith c (strip c s) = false) as H1
    by (unfold strip; apply rstrip_startswith, lstrip_startswith).
  assert (endswith c (strip c s) = false) as H2
    by (unfold strip; apply rstrip_endswith).
  split; [exact H1|]. split; [exact H2|]. split; [now apply Hid|].
  intros S E. split; [now apply Hid|].
  unfold strip. cbn [lstrip]. rewrite Ascii.eqb_refl.
  destruct s as [|a s].
  - rewrite str_app_nil. cbn [lstrip rstrip]. now rewrite Ascii.eqb_refl.
  - rewrite lstrip_id by (rewrite str_app_cons; exact S).
    rewrite rstrip_snoc. now apply rstrip_id.
Qed.

Lemma strip_quotes_witness :
  strip "034" "scene.TIF" = "scene.TIF" /\
  strip "034" (String "034" ("scene.TIF" +:+ String "034" "")) = "scene.TIF".
Proof.
  apply (proj2 (proj2 (proj2 (strip_quotes "034" "scene.TIF")))); reflexivity.
Defined.

Lemma line_prefix_id s : ~ occurs_in nl s -> line_prefix s = s.
Proof.
  induction s as [|a s IH]; intros H; [reflexivity|].
  cbn [line_prefix]. destruct (Ascii.eqb_spec a "010") as [->|_].
  - exfalso. apply H. now exists "", s.
  - rewrite IH; [reflexivity|]. intros O. apply H, occurs_in_tail, O.
Qed.

Lemma findall_filename_skip_all s k :
  (String.length s <= k)%nat -> findall_filename_from k s = [].
Proof.
  revert k. induction s as [|a s IH]; intros k H; [reflexivity|].
  cbn [String.length] in H. destruct k as [|k]; [lia|].
  cbn [findall_filename_from]. apply IH. lia.
Qed.

Lemma prefix_shorter u s v :
  String.prefix u (s +:+ v) = true -> (String.length u <= String.length s)%nat ->
  String.prefix u s = true.
Proof.
  revert s. induction u as [|a u IH]; intros s H L.
  - now destruct s.
  - destruct s as [|b s]; [cbn in L; lia|].
    rewrite str_app_cons in H. cbn [String.prefix] in H |- *.
    destruct (Ascii.ascii_dec a b); [|discriminate].
    apply IH; [exact H | cbn in L; lia].
Qed.

(** When the header is some text without an earlier [filename=], then
    [filename=], then a name that is not empty and holds no newline, the
    pattern has one match, and its group is the name. *)
Theorem findall_filename_header pre name :
  ~ occurs_in "filename=" (pre +:+ "filename") ->
  name <> "" ->
  ~ occurs_in nl name ->
  findall_filename (pre +:+ "filename=" +:+ name) = [name].
Proof.
  intros Hpre Hname Hnl. unfold findall_filename.
  induction pre as [|a pre IH].
  - rewrite str_app_nil.
    change ("filename=" +:+ name) with (String "f" ("ilename=" +:+ name)).
    cbn [findall_filename_from].
    assert (match_filename_here (String "f" ("ilename=" +:+ name)) = Some name) as ->.
    { unfold match_filename_here.
      assert (String.prefix "filename=" (String "f" ("ilename=" +:+ name)) = true) as ->
        by (apply prefix_app; now exists name).
      change (str_drop 9 (String "f" ("ilename=" +:+ name))) with name.
      rewrite line_prefix_id by exact Hnl.
      destruct name; [congruence | reflexivity]. }
    rewrite findall_filename_skip_all; [reflexivity|].
    rewrite str_length_app. cbn [String.length]. lia.
  - rewrite str_app_cons. cbn [findall_filename_from].
    assert (match_filename_here (String a (pre +:+ "filename=" +:+ name)) = None) as ->.
    { unfold match_filename_here.
      destruct (String.prefix "filename=" (String a (pre +:+ "filename=" +:+ name)))
        eqn:P; [|reflexivity].
      exfalso. apply Hpre.
      assert (String.prefix "filename=" (String a pre +:+ "filename") = true) as Q.
      { apply (prefix_shorter _ _ ("=" +:+ name)).
        - rewrite str_app_assoc.
          change ("filename" +:+ "=" +:+ name) with ("filename=" +:+ name).
          exact P.
        - rewrite str_length_app. cbn [String.length]. lia. }
      apply prefix_app in Q as [post ->]. now exists "", post. }
    apply IH. intros O. apply Hpre. rewrite str_app_cons. apply occurs_in_tail, O.
Qed.

Lemma findall_filename_header_witness :
  findall_filename ("attachment; " +:+ "filename=" +:+ "SCENE1.TIF") = ["SCENE1.TIF"].
Proof.
  apply (findall_filename_header "attachment; " "SCENE1.TIF").
  - intros H. apply contains_occurs_in in H. vm_compute in H. discriminate H.
  - discriminate.
  - intros H. apply contains_occurs_in in H. vm_compute in H. discriminate H.
Defined.

(** ** What [downloadFile] does to the files *)





(** ** The rename pass: what is left, and what is never touched *)

Section RenameLoop.
Context (out_dir : string).

Local Abbreviation key := (os_path_join out_dir).

Lemma rename_tif_keeps_cleared m w r w' n :
  relative m -> relative n -> snd (splitext n) <> ".tif" ->
  (forall c, fs w !! key n <> Some (File c)) ->
  rename_tif out_dir m w = (r, w') ->
  forall c, fs w' !! key n <> Some (File c).
Proof.
  intros Hm Hn Hext Hclear E.
  apply rename_tif_cases in E as [[-> _]|(cm & bm & em & Hs & He & _ & _ & ->)];
    [exact Hclear|].
  destruct (target_tif _ _ _ Hm Hs He) as [Rt St].
  intros c. rewrite lookup_insert_ne.
  - destruct (decide (key m = key n)) as [->|K].
    + rewrite lookup_delete_eq. discriminate.
    + rewrite lookup_delete_ne by exact K. apply Hclear.
  - intros K. apply os_path_join_inj in K; [|assumption..].
    subst n. rewrite St in Hext. now apply Hext.
Qed.

Lemma rename_tif_clears n w w' :
  relative n -> tif_name n -> snd (splitext n) <> ".tif" ->
  rename_tif out_dir n w = (Returned tt, w') ->
  forall c, fs w' !! key n <> Some (File c).
Proof.
  intros Hn Htif Hext E.
  apply rename_tif_cases in E as [[-> H]|(cn & b & e & Hs & He & _ & _ & ->)].
  - now apply H.
  - destruct (target_tif _ _ _ Hn Hs He) as [Rt St].
    intros c. rewrite lookup_insert_ne, lookup_delete_eq; [discriminate|].
    intros K. apply os_path_join_inj in K; [|assumption..].
    subst n. rewrite St in Hext. now apply Hext.
Qed.

Lemma rename_loop_keeps_cleared names w w' n :
  Forall relative names -> relative n -> snd (splitext n) <> ".tif" ->
  (forall c, fs w !! key n <> Some (File c)) ->
  for_each (rename_tif out_dir) names w = (Returned tt, w') ->
  forall c, fs w' !! key n <> Some (File c).
Proof.
  intros Hnames Hn Hext. revert w. unfold for_each.
  induction Hnames as [|m names Hm _ IH]; intros w Hclear; cbn [for_acc].
  - intros E. now injection E as <-.
  - unfold bind.
    destruct (rename_tif out_dir m w) as [[[]|?|?] w1] eqn:E; try discriminate.
    apply IH. exact (rename_tif_keeps_cleared m w _ w1 n Hm Hn Hext Hclear E).
Qed.

Lemma rename_tif_outside m w p :
  relative m ->
  (forall x, p <> join_prefix out_dir +:+ x) ->
  fs (snd (rename_tif out_dir m w)) !! p = fs w !! p.
Proof.
  intros Hm Hp.
  destruct (rename_tif out_dir m w) as [r w'] eqn:E. cbn [snd].
  apply rename_tif_cases in E as [[-> _]|(c & b & e & Hs & He & _ & _ & ->)];
    [reflexivity|].
  destruct (target_tif _ _ _ Hm Hs He) as [Rt _].
  rewrite lookup_insert_ne, lookup_delete_ne; [reflexivity| |].
  - rewrite os_path_join_relative by exact Hm. intros K. now apply (Hp m).
  - rewrite os_path_join_relative by exact Rt. intros K. now apply (Hp (b +:+ ".tif")).
Qed.

Lemma rename_tif_quiet m w :
  net (snd (rename_tif out_dir m w)) = net w /\
  stdout (snd (rename_tif out_dir m w)) = stdout w.
Proof.
  unfold rename_tif, bind, isfile.
  destruct (fs w !! key m) as [[c|]|]; try (split; reflexivity).
  destruct (splitext m) as [oldbase ext].
  destruct (String.eqb (upper ext) ".TIF"); [|split; reflexivity].
  unfold os_rename.
  destruct (fs w !! key m) as [[c1|]|]; [| |split; reflexivity];
    destruct (fs w !! key (oldbase +:+ ".tif")) as [[c'|]|];
    try (split; reflexivity);
    destruct (String.eqb (key m) (key (oldbase +:+ ".tif"))); split; reflexivity.
Qed.

End RenameLoop.

(** When the pass over a listing completes, no listed name whose extension
    is [.tif] in another letter case ([.TIF], [.Tif], ...) is a regular
    file any more, whatever the order of the listing and the other files. *)
Theorem rename_loop_clears_upper_case out_dir names w w' n :
  Forall relative names ->
  n ∈ names ->
  tif_name n ->
  snd (splitext n) <> ".tif" ->
  for_each (rename_tif out_dir) names w = (Returned tt, w') ->
  forall c, fs w' !! os_path_join out_dir n <> Some (File c).
Proof.
  intros Hnames. revert w.
  induction Hnames as [|m names Hm Hnames IH]; intros w Hin Htif Hext.
  - now apply elem_of_nil in Hin.
  - unfold for_each. cbn [for_acc]. unfold bind.
    destruct (rename_tif out_dir m w) as [[[]|?|?] w1] eqn:E; try discriminate.
    fold (for_each (rename_tif out_dir) names).
    destruct (decide (n = m)) as [->|Hne].
    + apply rename_loop_keeps_cleared; try assumption.
      exact (rename_tif_clears out_dir m w w1 Hm Htif Hext E).
    + apply IH; try assumption.
      apply elem_of_cons in Hin as [->|Hin]; [congruence | exact Hin].
Qed.

Lemma rename_loop_clears_upper_case_witness :
  fs (snd (for_each (rename_tif "out") ["a.Tif"; "a.TIF"; "a.tif"]
             (World [] [] {[ "out/a.Tif" := File ["1"%char];
                             "out/a.TIF" := File ["2"%char];
                             "out/a.tif" := File ["3"%char] ]})))
    !! os_path_join "out" "a.TIF" <> Some (File ["2"%char]).
Proof.
  apply (rename_loop_clears_upper_case "out" ["a.Tif"; "a.TIF"; "a.tif"]
           (World [] [] {[ "out/a.Tif" := File ["1"%char];
                           "out/a.TIF" := File ["2"%char];
                           "out/a.tif" := File ["3"%char] ]})
           _ "a.TIF").
  - repeat constructor.
  - apply elem_of_cons. right. apply elem_of_cons. now left.
  - reflexivity.
  - vm_compute. discriminate.
  - vm_compute. reflexivity.
Defined.

(** The pass as the script runs it changes no path outside the output
    directory, makes no request and prints nothing. *)
Theorem rename_pass_stays_inside out_dir w p :
  (forall x, p <> join_prefix out_dir +:+ x) ->
  fs (snd (rename_pass out_dir w)) !! p = fs w !! p /\
  net (snd (rename_pass out_dir w)) = net w /\
  stdout (snd (rename_pass out_dir w)) = stdout w.
Proof.
  intros Hp. unfold rename_pass, bind.
  destruct (listdir out_dir w) as [[names|e|c] w1] eqn:E.
  - apply listdir_relative in E as [Hnames ->].
    revert w. unfold for_each.
    induction Hnames as [|m names Hm _ IH]; intros w; cbn [for_acc];
      [repeat split|].
    unfold bind.
    pose proof (rename_tif_outside out_dir m w p Hm Hp) as F.
    destruct (rename_tif_quiet out_dir m w) as [N S].
    destruct (rename_tif out_dir m w) as [[[]|?|?] w1]; cbn [snd] in F, N, S |- *;
      [|repeat split; assumption..].
    destruct (IH w1) as (F1 & N1 & S1).
    rewrite F1, N1, S1. repeat split; assumption.
  - unfold listdir in E. destruct (fs w !! out_dir) as [[|]|];
      injection E as _ <-; repeat split.
  - unfold listdir in E. destruct (fs w !! out_dir) as [[|]|]; discriminate.
Qed.

Lemma rename_pass_stays_inside_witness :
  fs (snd (rename_pass "out"
             (World [] [] {[ "out" := Dir; "out/a.TIF" := File [];
                             "other/b.TIF" := File [] ]})))
    !! "other/b.TIF" =
  fs (World [] [] {[ "out" := Dir; "out/a.TIF" := File [];
                     "other/b.TIF" := File [] ]}) !! "other/b.TIF".
Proof.
  apply (rename_pass_stays_inside "out"
           (World [] [] {[ "out" := Dir; "out/a.TIF" := File [];
                           "other/b.TIF" := File [] ]}) "other/b.TIF").
  intros x H. vm_compute in H. discriminate H.
Defined.

(** ** Dates written [yyyy-mm-dd] *)

(** A case analysis on a number below 32, each case by computation. *)
Ltac small_cases n :=
  let k := fresh "k" in
  let Hk := fresh "Hk" in
  remember (Z.to_nat n) as k eqn:Hk;
  replace n with (Z.of_nat k) in * by lia;
  clear Hk;
  do 32 (destruct k as [|k]; [try reflexivity; lia|]);
  lia.

Lemma digit_digit_char n : 0 <= n <= 9 -> Strptime.digit (digit_char n) = Some n.
Proof. intros H. small_cases n. Qed.

Lemma month_dash_digits m rest :
  1 <= m <= 12 ->
  Strptime.month_dash (digit_char (m / 10) :: digit_char (m mod 10) :: "-"%char :: rest)
  = Some (m, rest).
Proof. intros H. small_cases m. Qed.

Lemma day_end_digits a :
  1 <= a <= 31 ->
  Strptime.day_end [digit_char (a / 10); digit_char (a mod 10)] = Some a.
Proof. intros H. small_cases a. Qed.

Lemma days_in_month_le y m : Date.days_in_month y m <= 31.
Proof.
  unfold Date.days_in_month.
  destruct (m =? 2); [destruct (Date.is_leap y); lia|].
  destruct (_ || _); lia.
Qed.

(** Every date of the calendar, written [yyyy-mm-dd] with leading zeros,
    is accepted by [strptime] and read back as that date. *)
Theorem strptime_accepts_iso_text d :
  Date.valid d = true -> Strptime.strptime (iso_text d) = Ok d.
Proof.
  intros Hvalid. pose proof Hvalid as V.
  destruct d as [y m a]. unfold Date.valid in V. cbn [Date.year Date.month Date.day] in V.
  repeat (apply andb_true_iff in V as [V ?]).
  repeat match goal with H : (_ <=? _) = true |- _ => apply Z.leb_le in H end.
  pose proof (days_in_month_le y m).
  unfold Strptime.strptime, Strptime.fields, iso_text.
  rewrite list_ascii_of_string_of_list_ascii.
  cbn [Date.year Date.month Date.day].
  unfold Strptime.year4.
  rewrite !digit_digit_char by (Z.div_mod_to_equations; lia).
  rewrite month_dash_digits by lia.
  rewrite day_end_digits by lia.
  replace (1000 * (y / 1000) + 100 * (y / 100 mod 10) + 10 * (y / 10 mod 10) + y mod 10)
    with y by (Z.div_mod_to_equations; lia).
  now rewrite Hvalid.
Qed.

Lemma strptime_accepts_iso_text_witness :
  Strptime.strptime (iso_text (Date.Build 2012 2 29)) = Ok (Date.Build 2012 2 29).
Proof.
  apply (strptime_accepts_iso_text (Date.Build 2012 2 29)). reflexivity.
Defined.

(** ** How the script ends *)

Lemma bind_returned {A B} (m : M A) (f : A -> M B) w b w' :
  bind m f w = (Returned b, w') ->
  exists a w1, m w = (Returned a, w1) /\ f a w1 = (Returned b, w').
Proof.
  unfold bind. destruct (m w) as [[a|e|c] w1]; try discriminate. eauto.
Qed.

Lemma never_exits_bind {A B} (m : M A) (f : A -> M B) :
  never_exits m -> (forall a, never_exits (f a)) -> never_exits (bind m f).
Proof.
  intros Hm Hf w c w'. unfold bind.
  destruct (m w) as [[a|e|c1] w1] eqn:E; [apply Hf|discriminate|].
  exfalso. eapply Hm, E.
Qed.

Lemma never_exits_try_except {A} (m : M A) (h : exn -> M A) :
  never_exits m -> (forall e, never_exits (h e)) -> never_exits (try_except m h).
Proof.
  intros Hm Hh w c w'. unfold try_except.
  destruct (m w) as [[a|e|c1] w1] eqn:E; [discriminate|apply Hh|].
  exfalso. eapply Hm, E.
Qed.

Lemma never_exits_ret {A} (a : A) : never_exits (ret a).
Proof. intros w c w'. discriminate. Qed.

Lemma never_exits_lift {A} (r : result A) : never_exits (lift r).
Proof. intros w c w'. destruct r; discriminate. Qed.

Lemma never_exits_print s : never_exits (print s).
Proof. intros w c w'. discriminate. Qed.

Lemma never_exits_sendRequest {A} (reply : list event -> http_reply A) url data apiKey :
  never_exits (sendRequest reply url data apiKey).
Proof.
  intros w c w'. unfold sendRequest.
  destruct (reply _) as [e|st [[d|]|]]; try discriminate;
    destruct ((400 <=? st) && (st <? 600)); discriminate.
Qed.

Lemma never_exits_for_acc {A S} (body : A -> S -> M S) l s :
  (forall x s, never_exits (body x s)) -> never_exits (for_acc body l s).
Proof.
  intros Hb. revert s. induction l as [|x l IH]; intros s; cbn [for_acc].
  - apply never_exits_ret.
  - apply never_exits_bind; auto.
Qed.

Lemma never_exits_collect_downloads env args :
  never_exits (collect_downloads env args).
Proof.
  unfold collect_downloads.
  apply never_exits_bind; [apply never_exits_lift | intros names].
  apply never_exits_bind; [apply never_exits_print | intros _].
  apply never_exits_bind; [apply never_exits_sendRequest | intros apiKey].
  apply never_exits_bind; [|intros acc; apply never_exits_ret].
  apply never_exits_for_acc. intros d acc. unfold search_dataset.
  apply never_exits_bind; [apply never_exits_print | intros _].
  apply never_exits_bind; [apply never_exits_sendRequest | intros scenes].
  assert (never_exits (print ("No scenes found in " +:+ d) ;; ret acc)) as Hnone
    by (apply never_exits_bind; [apply never_exits_print | intros _; apply never_exits_ret]).
  destruct scenes as [[|sc results]|]; try exact Hnone.
  apply never_exits_bind.
  - apply never_exits_try_except.
    + apply never_exits_bind; [apply never_exits_sendRequest | intros o; apply never_exits_ret].
    + intros e. apply never_exits_bind; [apply never_exits_print | intros _; apply never_exits_ret].
  - intros [o|]; apply never_exits_ret.
Qed.

Lemma never_exits_rename_pass out_dir : never_exits (rename_pass out_dir).
Proof.
  unfold rename_pass. apply never_exits_bind.
  - intros w c w'. unfold listdir. destruct (fs w !! out_dir) as [[|]|]; discriminate.
  - intros names. apply never_exits_for_acc. intros m _ w c w'.
    unfold rename_tif, bind, isfile.
    destruct (fs w !! os_path_join out_dir m) as [[c1|]|]; try discriminate.
    destruct (splitext m) as [b e].
    destruct (String.eqb (upper e) ".TIF"); [|discriminate].
    unfold os_rename.
    destruct (fs w !! os_path_join out_dir m) as [[c2|]|]; [| |discriminate];
      destruct (fs w !! os_path_join out_dir (b +:+ ".tif")) as [[c'|]|];
      try discriminate; destruct (String.eqb _ _); discriminate.
Qed.

Lemma never_exits_submit env args apiKey d all_downloads :
  never_exits (submit_and_fetch env args apiKey (d :: all_downloads)).
Proof.
  unfold submit_and_fetch.
  apply never_exits_bind; [apply never_exits_sendRequest | intros rr].
  apply never_exits_bind; [apply never_exits_print | intros _].
  apply never_exits_bind.
  { intros w c w'. unfold makedirs. destruct (String.length _ =? 0)%nat; [discriminate|].
    destruct (fs w !! out_dir args) as [[|]|]; discriminate. }
  intros _. apply never_exits_bind.
  { apply never_exits_for_acc. intros item _ w c w'.
    destruct (downloadFile_returns env (Available.url item) (out_dir args) w) as (w1 & -> & _).
    discriminate. }
  intros _. apply never_exits_bind; [apply never_exits_rename_pass | intros _].
  apply never_exits_print.
Qed.

(** The script exits through [sys.exit] only with status 0, and only when
    the loop over the datasets has ended with no candidate, right after the
    message. *)
Theorem main_exits_only_with_zero env args w c w' :
  main env args w = (Exited c, w') ->
  c = 0 /\
  exists apiKey w1,
    collect_downloads env args w = (Returned (apiKey, []), w1) /\
    w' = add_line "No valid downloads found." w1.
Proof.
  unfold main, bind.
  destruct (collect_downloads env args w) as [[[apiKey acc]|e|c1] w1] eqn:E.
  - cbn [fst snd]. destruct acc as [|d acc].
    + intros H. injection H as <- <-. split; [reflexivity|]. eauto.
    + intros H. exfalso. eapply never_exits_submit, H.
  - discriminate.
  - exfalso. eapply never_exits_collect_downloads, E.
Qed.

Lemma main_exits_only_with_zero_witness :
  0 = 0 /\
  exists apiKey w1,
    collect_downloads Sample.env_no_scene Sample.args Sample.start
      = (Returned (apiKey, []), w1) /\
    snd (main Sample.env_no_scene Sample.args Sample.start)
      = add_line "No valid downloads found." w1.
Proof.
  apply (main_exits_only_with_zero Sample.env_no_scene Sample.args Sample.start).
  vm_compute. reflexivity.
Defined.

(** When the script returns normally, candidates were found, a request was
    sent to [download-request], and the last line printed is
    [Download complete.]. *)
Theorem main_returns_after_download_request env args w w' :
  main env args w = (Returned tt, w') ->
  last (stdout w') = Some "Download complete." /\
  (exists ev, ev ∈ net w' /\ is_download_request ev) /\
  (exists apiKey d all_downloads w1,
     collect_downloads env args w = (Returned (apiKey, d :: all_downloads), w1)).
Proof.
  intros H. unfold main in H.
  apply bind_returned in H as ([apiKey acc] & w1 & Hc & Hs). cbn [fst snd] in Hs.
  destruct acc as [|d acc]; [discriminate Hs|].
  split; [|split].
  - unfold submit_and_fetch in Hs.
    apply bind_returned in Hs as (rr & w2 & _ & Hs).
    apply bind_returned in Hs as (? & w3 & _ & Hs).
    apply bind_returned in Hs as (? & w4 & _ & Hs).
    apply bind_returned in Hs as (? & w5 & _ & Hs).
    apply bind_returned in Hs as (? & w6 & _ & Hs).
    unfold print in Hs. injection Hs as <-. apply last_snoc.
  - destruct (submit_and_fetch_sends env args apiKey d acc w1) as [later N].
    rewrite Hs in N. cbn [snd] in N.
    eexists. split.
    + rewrite N. apply elem_of_app. right. apply elem_of_cons. left. reflexivity.
    + reflexivity.
  - eauto.
Qed.

Lemma main_returns_after_download_request_witness :
  last (stdout (snd (main Sample.env Sample.args Sample.start)))
    = Some "Download complete." /\
  (exists ev, ev ∈ net (snd (main Sample.env Sample.args Sample.start)) /\
              is_download_request ev) /\
  (exists apiKey d all_downloads w1,
     collect_downloads Sample.env Sample.args Sample.start
       = (Returned (apiKey, d :: all_downloads), w1)).
Proof.
  apply (main_returns_after_download_request Sample.env Sample.args Sample.start).
  vm_compute. reflexivity.
Defined.

(** ** Credentials and the API key *)

Lemma emits_sendRequest_headers P {A} (reply : list event -> http_reply A)
    url data apiKey :
  P (Post url data (request_headers apiKey)) ->
  emits P (sendRequest reply url data apiKey).
Proof.
  intros HP w. eexists. split; [apply sendRequest_net|].
  repeat constructor. exact HP.
Qed.

Lemma search_dataset_with_key env args apiKey datasetName all_downloads :
  emits (with_key apiKey) (search_dataset env args apiKey datasetName all_downloads).
Proof.
  unfold search_dataset.
  apply emits_bind; [apply emits_print|intros _].
  apply emits_bind.
  { apply emits_sendRequest_headers. unfold search_payload.
    destruct (bbox args) as [[[? ?] ?] ?]. reflexivity. }
  intros [[|sc results]|].
  - apply emits_bind; [apply emits_print | intros _; apply emits_ret].
  - apply emits_bind.
    + apply emits_try_except.
      * apply emits_bind; [|intros o; apply emits_ret].
        apply emits_sendRequest_headers. reflexivity.
      * intros e. apply emits_bind; [apply emits_print | intros _; apply emits_ret].
    + intros [o|]; apply emits_ret.
  - apply emits_bind; [apply emits_print | intros _; apply emits_ret].
Qed.

(** When the loop over the datasets completes, the first request of the
    run was the login, carrying the user name and the token and no token
    header; every later request is a search or a download-options request
    sent with the key the login returned, and none carries the
    credentials. *)
Theorem credentials_sent_once env args w apiKey all_downloads w' :
  collect_downloads env args w = (Returned (apiKey, all_downloads), w') ->
  exists evs,
    net w' =
      net w ++
        Post (serviceUrl +:+ "login-token")
          (LoginPayload (username args) (token args))
          [("Content-Type", "application/json")] :: evs /\
    Forall (with_key apiKey) evs.
Proof.
  unfold collect_downloads. intros H.
  apply bind_returned in H as (names & w0 & H0 & H).
  assert (w0 = w) as ->.
  { destruct (get_valid_datasets _ _ _); cbn in H0; [now injection H0|discriminate]. }
  apply bind_returned in H as ([] & w1 & H1 & H). injection H1 as <-.
  apply bind_returned in H as (k & w2 & H2 & H).
  apply bind_returned in H as (acc & w3 & H3 & H).
  injection H as <- <- <-.
  pose proof (sendRequest_net (login_reply env) (serviceUrl +:+ "login-token")
                (LoginPayload (username args) (token args)) None
                (add_line ("Using datasets: " +:+ repr_list names) w)) as N2.
  rewrite H2 in N2. cbn [snd net add_line] in N2.
  assert (emits (with_key k) (search_datasets env args k names [])) as Hem.
  { apply emits_for_acc. intros d acc0. apply search_dataset_with_key. }
  destruct (Hem w2) as (evs & N3 & F). rewrite H3 in N3. cbn [snd] in N3.
  exists evs. split; [|exact F].
  rewrite N3, N2, <- app_assoc. reflexivity.
Qed.

Lemma credentials_sent_once_witness :
  exists evs,
    net (snd (collect_downloads Sample.env Sample.args Sample.start)) =
      net Sample.start ++
        Post (serviceUrl +:+ "login-token")
          (LoginPayload (username Sample.args) (token Sample.args))
          [("Content-Type", "application/json")] :: evs /\
    Forall (with_key "KEY") evs.
Proof.
  apply (credentials_sent_once Sample.env Sample.args Sample.start "KEY"
           (fst Sample.found)).
  vm_compute. reflexivity.
Defined.
